(** * changemon: tree comparison and monitor cycle

    A shallow embedding of [changemon.py] (Python 2, POSIX paths).

    - Python [str] values are [string]s (sequences of 8-bit characters).
    - The file system the program reads is a function from absolute paths to
      file records; every access the program makes ([os.path.getsize],
      [os.path.getmtime], reading a file to checksum it) is logged in a trace,
      so that statements about which tier of the change test ran can be made.
    - Python exceptions are values of [exn]; a computation stops at the first
      exception it raises.
    - A local variable that may be unbound when it is read ([changed],
      [unchanged], [pre_checksums], [cur_checksums]) is an [option]; reading
      [None] raises [UnboundLocalError], a subclass of [NameError].
    - [dict]s are [gmap]s. *)

From Stdlib Require Import Ascii String ZArith Lia DecimalString.
From stdpp Require Import base tactics option list gmap strings sorting.

#[local] Open Scope list_scope.
#[local] Open Scope stdpp_scope.
#[local] Arguments String.append : simpl nomatch.

(** ** Python strings *)

Module Str.

(** [s.startswith(t)] *)
Definition startswith (s t : string) : bool := String.prefix t s.

(** [s.endswith(t)] *)
Fixpoint endswith (s t : string) : bool :=
  String.eqb s t ||
  match s with
  | EmptyString => false
  | String _ s' => endswith s' t
  end.

(** [s[n:]] *)
Fixpoint drop (n : nat) (s : string) : string :=
  match n, s with
  | O, _ => s
  | S _, EmptyString => EmptyString
  | S n', String _ s' => drop n' s'
  end.

(** [c in s] for a one-character string [c] *)
Fixpoint contains (c : ascii) (s : string) : bool :=
  match s with
  | EmptyString => false
  | String d s' => Ascii.eqb c d || contains c s'
  end.

(** [s.replace(sub, '', 1)]: the leftmost occurrence of [sub] is removed;
    [s] is returned unchanged when [sub] does not occur, and also when
    [sub] is empty. *)
Fixpoint erase_first (s sub : string) : string :=
  if String.prefix sub s then drop (String.length sub) s
  else match s with
       | EmptyString => EmptyString
       | String c s' => String c (erase_first s' sub)
       end.

Definition lower_char (c : ascii) : ascii :=
  let n := nat_of_ascii c in
  if (65 <=? n)%nat && (n <=? 90)%nat then ascii_of_nat (n + 32) else c.

(** [s.lower()] *)
Fixpoint lower (s : string) : string :=
  match s with
  | EmptyString => EmptyString
  | String c s' => String (lower_char c) (lower s')
  end.

(** Longest common prefix of two strings. *)
Fixpoint lcp (s t : string) : string :=
  match s, t with
  | String c s', String d t' =>
      if Ascii.eqb c d then String c (lcp s' t') else EmptyString
  | _, _ => EmptyString
  end.

(** [sorted(l)] on strings: ascending in the byte-wise lexicographic
    order. *)
Fixpoint insert_sorted (x : string) (l : list string) : list string :=
  match l with
  | [] => [x]
  | y :: l' => if String.leb x y then x :: l else y :: insert_sorted x l'
  end.

Definition sorted (l : list string) : list string :=
  foldr insert_sorted [] l.

End Str.

(** ** [os.path] on POSIX *)

Module Path.

Definition sep : string := "/".

(** [os.path.join(a, b)] *)
Definition join (a b : string) : string :=
  if Str.startswith b "/" then b
  else if String.eqb a "" || Str.endswith a "/" then a +:+ b
  else a +:+ "/" +:+ b.

(** [os.path.commonprefix(m)]: the longest string that is a prefix of
    every element of [m], taken character by character; the empty string
    for the empty list.  (The library takes the common prefix of the
    smallest and the largest element, which is the same string; lemmas
    [commonprefix_prefixes] and [commonprefix_greatest] below pin the
    function down.) *)
Definition commonprefix (m : list string) : string :=
  match m with
  | [] => ""
  | x :: m' => foldl Str.lcp x m'
  end.

End Path.

(** ** The file system, exceptions, and the effect monad *)

Record file := File {
  f_data  : string;   (* the bytes of the file *)
  f_mtime : Z         (* last modification time *)
}.

(** The file system gives, for a path that names a file, the file: its
    size is the length of [f_data].  A path with no file gives [None].
    Every file that is there can be read: a file whose size is known and
    whose bytes cannot be opened is not represented. *)
Definition FS := string → option file.

Inductive exn :=
| IndexError
| UnboundLocalError (var : string)
| KeyError (key : string)
| OSError (path : string)
| IOError (path : string).

(** [UnboundLocalError] is a subclass of [NameError]. *)
Definition is_NameError (e : exn) : bool :=
  match e with UnboundLocalError _ => true | _ => false end.

Inductive result (A : Type) :=
| Ok (a : A)
| Raise (e : exn).
Arguments Ok {A} a.
Arguments Raise {A} e.

Inductive event :=
| Getsize (path : string)
| Getmtime (path : string)
| ReadFile (path : string).

(** A computation reads the file system and yields the accesses it made and
    either a value or the exception that stopped it. *)
Definition M (A : Type) : Type := FS → list event * result A.

Definition ret {A} (a : A) : M A := λ _, ([], Ok a).

Definition bind {A B} (m : M A) (k : A → M B) : M B := λ fs,
  match m fs with
  | (tr, Ok a) => let '(tr', r) := k a fs in (tr ++ tr', r)
  | (tr, Raise e) => (tr, Raise e)
  end.

Definition raise {A} (e : exn) : M A := λ _, ([], Raise e).

Notation "x <- c1 ;; c2" := (bind c1 (λ x, c2))
  (at level 100, c1 at next level, right associativity).

(** Reading a local variable that may not have been assigned. *)
Definition read_local {A} (var : string) (v : option A) : M A :=
  match v with
  | Some a => ret a
  | None => raise (UnboundLocalError var)
  end.

(** [filter(f, l)] for an effectful predicate, evaluated left to right. *)
Fixpoint filterM {A} (f : A → M bool) (l : list A) : M (list A) :=
  match l with
  | [] => ret []
  | x :: l' =>
      b <- f x ;;
      r <- filterM f l' ;;
      ret (if b then x :: r else r)
  end.

(** A tree snapshot is the list [os.walk] yields: one entry
    [(root, dirs, files)] per directory.  A group is a label with its
    paths. *)
Definition entry : Type := string * list string * list string.
Definition snapshot : Type := list entry.
Definition group : Type := string * list string.

Section Program.

(** [hashlib.md5(contents).digest()] *)
Variable md5 : string → string.

(** [os.path.getsize(f)] *)
Definition getsize (f : string) : M nat := λ fs,
  ([Getsize f],
   match fs f with
   | Some x => Ok (String.length (f_data x))
   | None => Raise (OSError f)
   end).

(** [os.path.getmtime(f)] *)
Definition getmtime (f : string) : M Z := λ fs,
  ([Getmtime f],
   match fs f with
   | Some x => Ok (f_mtime x)
   | None => Raise (OSError f)
   end).

(** [checksum(f)] *)
Definition checksum (f : string) : M string := λ fs,
  ([ReadFile f],
   match fs f with
   | Some x => Ok (md5 (f_data x))
   | None => Raise (IOError f)
   end).

(** *** [differing]: return True when two files differ

    The nested helper [comparison(func, file1, file2)] applies [func] to
    [file1], then to [file2], and compares the two values with [!=]. *)
Definition differing (files : string * string) (skip_checksum : bool)
  : M bool :=
  let comparison (V : Type) (ne : V → V → bool) (func : string → M V)
                 (file1 file2 : string) : M bool :=
    v1 <- func file1 ;;
    v2 <- func file2 ;;
    ret (ne v1 v2) in
  let '(file1, file2) := files in
  (* if sizes differ, it's true that files aren't the same *)
  b <- comparison nat (λ a b, negb (a =? b)%nat) getsize file1 file2 ;;
  if b then ret true
  (* if sizes don't differ, check md5sums for accuracy *)
  else if negb skip_checksum then
    comparison string (λ a b, negb (String.eqb a b)) checksum file1 file2
  (* or check modification time instead *)
  else
    comparison Z (λ a b, negb (a =? b)%Z) getmtime file1 file2.

(** *** [get_checksums] *)

Definition get_checksums (tree : snapshot) : M (gmap string string) :=
  foldl (λ acc '(root, dirs, files),
           foldl (λ acc f,
                    checksums <- acc ;;
                    let fname := Path.join root f in
                    d <- checksum fname ;;
                    ret (<[fname := d]> checksums))
                 acc files)
        (ret ∅) tree.

(** *** [comparison]: differences between two trees generated by
    [os.walk()] *)

(** Add path separator to end of path string *)
Definition with_sep (s : string) : string := Path.join s "".

(** Remove first count of substring from s *)
Definition erase_from (s sub : string) : string := Str.erase_first s sub.

(** Flat list of files and directories of t, with items preceded by root
    name *)
Definition full_listing (t : snapshot) : list string :=
  flat_map (λ '(root, dirs, files),
              map (Path.join root) (files ++ map with_sep dirs)) t.

(** Flat list of files and directories with root path stripped *)
Definition stripped_listing (root : string) (l : list string)
  : list string :=
  map (λ s, erase_from s (with_sep (Path.commonprefix ([root] ++ l)))) l.

(** [t[0][0]] *)
Definition first_root (t : snapshot) : M string :=
  match t with
  | [] => raise IndexError
  | (root, _, _) :: _ => ret root
  end.

(** The three list comprehensions that classify the stripped paths. *)
Definition added_of (before_str after_str : list string) : list string :=
  filter (λ p, ¬ p ∈ before_str) after_str.

Definition removed_of (before_str after_str : list string) : list string :=
  filter (λ p, ¬ p ∈ after_str) before_str.

Definition common_of (added after_str : list string) : list string :=
  filter (λ p, ¬ p ∈ added) after_str.

Definition is_dir_path (p : string) : bool := Str.endswith p Path.sep.

Definition common_with_roots_of (root1 root2 : string)
    (common : list string) : list (string * string) :=
  map (λ p, (Path.join root1 p, Path.join root2 p))
      (filter (λ p, negb (is_dir_path p)) common).

(** The loop that builds [results]: for each character of
    [flags.lower()], the first group with that character, its data
    sorted. *)
Fixpoint group_for (f : ascii) (groups : list (ascii * string * list string))
  : list group :=
  match groups with
  | [] => []
  | (char, label, data) :: groups' =>
      if Ascii.eqb char f then [(label, Str.sorted data)]
      else group_for f groups'
  end.

Definition results_of (flags : string)
    (groups : list (ascii * string * list string)) : list group :=
  flat_map (λ f, group_for f groups)
           (list_ascii_of_string (Str.lower flags)).

Definition comparison (flags : string) (t1 t2 : snapshot)
    (skip_checksum : bool) : M (list group) :=
  root1 <- first_root t1 ;;
  root2 <- first_root t2 ;;
  let before := full_listing t1 in
  let after := full_listing t2 in
  let before_str := stripped_listing root1 before in
  let after_str := stripped_listing root2 after in
  let added := added_of before_str after_str in
  let removed := removed_of before_str after_str in
  let common := common_of added after_str in
  let common_with_roots := common_with_roots_of root1 root2 common in
  locals <-
    (if Str.contains "c" flags || Str.contains "u" flags then
       differ <- filterM (λ p, differing p skip_checksum)
                         common_with_roots ;;
       let changed :=
         map (λ p, erase_from (fst p) (with_sep root1)) differ in
       let unchanged :=
         filter (λ p, ¬ p ∈ changed ∧ ¬ is_dir_path p) common in
       ret (Some changed, Some unchanged)
     else ret (None, None)) ;;
  let '(changed_var, unchanged_var) := locals in
  changed <- read_local "changed" changed_var ;;
  unchanged <- read_local "unchanged" unchanged_var ;;
  let groups := [("a"%char, "Added",     added);
                 ("c"%char, "Changed",   changed);
                 ("r"%char, "Removed",   removed);
                 ("s"%char, "Shared",    common);
                 ("u"%char, "Unchanged", unchanged)] in
  ret (results_of flags groups).

(** *** [pretty_watch]: the text printed for one cycle in watch mode,
    [None] when nothing is printed *)

Definition show_nat (n : nat) : string :=
  NilEmpty.string_of_uint (Nat.to_uint n).

Definition pretty_watch (results : list group) (cutoff : nat)
  : option string :=
  let make_group (tup : group) : string :=
    let '(label, seq) := tup in
    let files_string :=
      if (length seq <=? cutoff)%nat then String.concat ", " seq
      else String.concat ", " (take cutoff seq) +:+ " and " +:+
           show_nat (length (drop cutoff seq)) +:+ " more" in
    label +:+ ": " +:+ files_string in
  let output :=
    map make_group
        (filter (λ tup : group, snd tup ≠ []) results) in
  match output with
  | [] => None
  | _ => Some (String.concat (String "010" "") output)
  end.

(** *** [monitor]: the loop for monitor mode *)

Record args := Args {
  a_flags : string;
  a_skip_checksum : bool;
  a_cutoff : nat
}.

(** [if not args.skip_checksum: x_checksums = get_checksums(x_state)]:
    the variable stays unbound when checksums are skipped. *)
Definition bind_checksums (skip_checksum : bool) (state : snapshot)
  : M (option (gmap string string)) :=
  if negb skip_checksum then
    checksums <- get_checksums state ;; ret (Some checksums)
  else ret None.

(** [if args.flags.find('s') == -1: args.flags += 's'] *)
Definition flags_with_shared (flags : string) : string :=
  if negb (Str.contains "s" flags) then flags +:+ "s" else flags.

(** The inner loop over the paths of the Shared group. *)
Fixpoint shared_changed (pre_state : snapshot)
    (pre_checksums cur_checksums : option (gmap string string))
    (seq : list string) : M (list string) :=
  match seq with
  | [] => ret []
  | fname :: seq' =>
      root <- first_root pre_state ;;
      let key := Path.join root fname in
      pre <- read_local "pre_checksums" pre_checksums ;;
      hit <-
        match pre !! key with
        | Some d1 =>
            cur <- read_local "cur_checksums" cur_checksums ;;
            match cur !! key with
            | Some d2 => ret (negb (String.eqb d1 d2))
            | None => raise (KeyError key)
            end
        | None => ret false
        end ;;
      changed <- shared_changed pre_state pre_checksums cur_checksums seq' ;;
      ret (if hit then fname :: changed else changed)
  end.

(** The first loop over [compared]: at the first group labelled Shared,
    collect the changed paths, delete the group and stop.  Returns
    [changed] and the updated [compared]. *)
Fixpoint take_shared (pre_state : snapshot)
    (pre_checksums cur_checksums : option (gmap string string))
    (compared : list group) : M (list string * list group) :=
  match compared with
  | [] => ret ([], [])
  | (label, seq) :: rest =>
      if String.eqb label "Shared" then
        changed <- shared_changed pre_state pre_checksums cur_checksums seq ;;
        ret (changed, rest)
      else
        r <- take_shared pre_state pre_checksums cur_checksums rest ;;
        ret (fst r, (label, seq) :: snd r)
  end.

(** The second loop over [compared]: its [break] is not under the [if],
    so the loop body runs for the first group only. *)
Definition put_changed (changed : list string) (compared : list group)
  : list group :=
  match compared with
  | [] => []
  | (label, seq) :: rest =>
      if String.eqb label "Changed" then ("Changed", changed) :: rest
      else compared
  end.

(** One iteration of the loop body after the second walk: everything from
    [cur_checksums] to the list handed to [pretty_watch]. *)
Definition monitor_compare (a : args) (pre_state cur_state : snapshot)
    (pre_checksums : option (gmap string string)) : M (list group) :=
  cur_checksums <- bind_checksums (a_skip_checksum a) cur_state ;;
  let flags := flags_with_shared (a_flags a) in
  compared <- comparison flags pre_state cur_state true ;;
  r <- take_shared pre_state pre_checksums cur_checksums compared ;;
  ret (put_changed (fst r) (snd r)).

(** One iteration of the loop body: [pre_checksums] is computed on the
    file system as it is before the sleep, the rest on the file system
    as it is after it. *)
Definition monitor_cycle (a : args)
    (pre_state : snapshot) (fs_pre : FS)
    (cur_state : snapshot) (fs_cur : FS)
  : list event * result (list group) :=
  match bind_checksums (a_skip_checksum a) pre_state fs_pre with
  | (tr, Ok pre_checksums) =>
      let '(tr', r) :=
        monitor_compare a pre_state cur_state pre_checksums fs_cur in
      (tr ++ tr', r)
  | (tr, Raise e) => (tr, Raise e)
  end.

(** What the loop observes in one iteration: whether the watched
    directory exists at the loop head, the walk and file system before
    the sleep (the walk is used on the first run only), and the walk and
    file system after it. *)
Record observation := Observation {
  o_exists : bool;
  o_walk_pre : snapshot;
  o_fs_pre : FS;
  o_walk_cur : snapshot;
  o_fs_cur : FS
}.

Inductive outcome :=
| Exited                (* the watched directory is gone *)
| Crashed (e : exn)     (* an exception left the loop *)
| Watching.             (* no observation left: still in the loop *)

(** [cur_state] is [None] while the variable is unbound, which is how the
    loop recognises its first run.  The result is the list of texts
    printed, cycle by cycle, and how the loop ended.  Only
    [KeyboardInterrupt] is caught by the loop; it is a signal from outside
    and is not part of the observations, so every exception here leaves
    the loop. *)
Fixpoint monitor (a : args) (cur_state : option snapshot)
    (world : list observation) : list (option string) * outcome :=
  match world with
  | [] => ([], Watching)
  | o :: world' =>
      if negb (o_exists o) then ([], Exited)
      else
        let pre_state :=
          match cur_state with
          | None => o_walk_pre o
          | Some s => s
          end in
        match monitor_cycle a pre_state (o_fs_pre o)
                            (o_walk_cur o) (o_fs_cur o) with
        | (_, Ok compared) =>
            let a' := Args (flags_with_shared (a_flags a))
                           (a_skip_checksum a) (a_cutoff a) in
            let '(out, res) := monitor a' (Some (o_walk_cur o)) world' in
            (pretty_watch compared (a_cutoff a) :: out, res)
        | (_, Raise e) => ([], Crashed e)
        end
  end.

End Program.

(** ** [pretty_compare]: the text printed in comparison mode *)

(** [s * n] *)
Fixpoint times (s : string) (n : nat) : string :=
  match n with
  | O => ""
  | S n' => s +:+ times s n'
  end.

Definition newline : string := String "010" "".

Definition pretty_compare (results : list group) : string :=
  let make_group (tup : group) : string :=
    let '(label, seq) := tup in
    let files_string :=
      match seq with
      | [] => ""
      | _ => String.concat newline seq +:+ newline
      end in
    label +:+ newline +:+ times "-" (String.length label) +:+ newline
      +:+ files_string in
  String.concat newline (map make_group results).

(** ** The tree walker

    [os.walk(top, followlinks=True, onerror=report)] is not part of the
    program; this is its behaviour on a directory whose content is a list
    of nodes, in the order [os.listdir] gives them. *)

#[warning="-register-all"]
Inductive node :=
| NFile (name : string) (data : string)
| NDir (name : string) (children : list node).

Definition file_names (children : list node) : list string :=
  omap (λ n, match n with NFile name _ => Some name | NDir _ _ => None end)
       children.

Definition dir_names (children : list node) : list string :=
  omap (λ n, match n with NDir name _ => Some name | NFile _ _ => None end)
       children.

(** The entries [os.walk] yields for a subdirectory node of [top]. *)
Fixpoint walk_node (top : string) (n : node) : snapshot :=
  match n with
  | NFile _ _ => []
  | NDir name children =>
      let new_path := Path.join top name in
      (new_path, dir_names children, file_names children)
        :: flat_map (walk_node new_path) children
  end.

(** [list(os.walk(top))], top-down: the entry of [top], then the walks of
    its subdirectories in order. *)
Definition os_walk (top : string) (children : list node) : snapshot :=
  (top, dir_names children, file_names children)
    :: flat_map (walk_node top) children.

(** The files below a directory, each with its absolute path and bytes. *)
Fixpoint node_files (top : string) (n : node) : list (string * string) :=
  match n with
  | NFile name data => [(Path.join top name, data)]
  | NDir name children =>
      flat_map (node_files (Path.join top name)) children
  end.

Definition tree_files (top : string) (children : list node)
  : list (string * string) :=
  flat_map (node_files top) children.

(** A file or directory name is not empty and holds no separator. *)
Definition valid_name (name : string) : bool :=
  negb (String.eqb name "") && negb (Str.contains "/" name).

Fixpoint valid_node (n : node) : bool :=
  match n with
  | NFile name _ => valid_name name
  | NDir name children => valid_name name && forallb valid_node children
  end.

(** The file system holds, below [top], the files of the tree with their
    bytes. *)
Definition holds (fs : FS) (top : string) (children : list node) : Prop :=
  Forall (λ pd, f_data <$> fs (fst pd) = Some (snd pd))
         (tree_files top children).

(** The paths of a tree relative to its root, directories with a trailing
    separator, and its files by relative path: the listing and the files of
    the tree walked from the empty root. *)
Definition rel_paths (children : list node) : list string :=
  full_listing (os_walk "" children).

Definition rel_files (children : list node) : list (string * string) :=
  tree_files "" children.

(** Two trees are identical when they have the same relative paths and the
    same bytes in every file; the order in which [os.listdir] gives the
    names may differ. *)
Definition same_tree (children1 children2 : list node) : Prop :=
  (∀ p, p ∈ rel_paths children1 ↔ p ∈ rel_paths children2) ∧
  (∀ pd, pd ∈ rel_files children1 ↔ pd ∈ rel_files children2).

(** Every file of the tree has the same modification time below [top1] and
    below [top2]. *)
Definition same_mtimes (fs : FS) (top1 top2 : string)
    (children : list node) : Prop :=
  ∀ p d, (p, d) ∈ rel_files children →
         f_mtime <$> fs (Path.join top1 p) = f_mtime <$> fs (Path.join top2 p).

(** ** Vocabulary for the statements *)

(** [p] is a prefix of [s]; [sub] occurs in [s]. *)
Definition prefixes (p s : string) : Prop := ∃ t, s = p +:+ t.

Definition occurs_in (sub s : string) : Prop :=
  ∃ pre post, s = pre +:+ sub +:+ post.

(** Root stripping as the specification words it: the longest common
    prefix of the root and all paths, dropped from the front of each
    path. *)
Definition strip_common_prefix (root : string) (paths : list string)
  : list string :=
  map (Str.drop (String.length (Path.commonprefix (root :: paths)))) paths.

(** Two directories [a] and [b] such that joining a name onto [a] gives
    what joining it onto [b] gives, with [pre] in front. *)
Definition relocated (pre a b : string) : Prop :=
  ∀ n, Str.startswith n "/" = false → Path.join a n = pre +:+ Path.join b n.

Definition relocate_file (pre : string) (pd : string * string)
  : string * string := (pre +:+ fst pd, snd pd).

(** The label a flag character selects. *)
Definition flag_label (f : ascii) : option string :=
  if Ascii.eqb f "a" then Some "Added"
  else if Ascii.eqb f "c" then Some "Changed"
  else if Ascii.eqb f "r" then Some "Removed"
  else if Ascii.eqb f "s" then Some "Shared"
  else if Ascii.eqb f "u" then Some "Unchanged"
  else None.

(** The labels selected by a flag string, one per occurrence. *)
Definition flag_labels (flags : string) : list string :=
  omap flag_label (list_ascii_of_string (Str.lower flags)).

(** The paths of the first group with a given label. *)
Fixpoint group_paths (label : string) (groups : list group) : list string :=
  match groups with
  | [] => []
  | (l, seq) :: groups' =>
      if String.eqb l label then seq else group_paths label groups'
  end.


(** A computation's outcome is a value, not an exception. *)
Definition returns {A} (r : list event * result A) : Prop :=
  ∃ a, snd r = Ok a.

(** The outcome is the value [True]. *)
Definition says_true (r : list event * result bool) : bool :=
  match snd r with Ok true => true | _ => false end.

(** The pairs of files [comparison] runs the change test on: its local
    [common_with_roots]. *)
Definition compared_pairs (t1 t2 : snapshot) : list (string * string) :=
  match t1, t2 with
  | (root1, _, _) :: _, (root2, _, _) :: _ =>
      let before_str := stripped_listing root1 (full_listing t1) in
      let after_str := stripped_listing root2 (full_listing t2) in
      common_with_roots_of root1 root2
        (common_of (added_of before_str after_str) after_str)
  | _, _ => []
  end.




(** The files a snapshot lists, by absolute path, in walk order. *)
Definition snapshot_files (t : snapshot) : list string :=
  flat_map (λ '(root, dirs, files), map (Path.join root) files) t.

(** One step of [get_checksums]: the body of its inner loop. *)
Definition add_checksum (md5 : string → string)
    (acc : M (gmap string string)) (fname : string)
  : M (gmap string string) :=
  checksums <- acc ;;
  d <- checksum md5 fname ;;
  ret (<[fname := d]> checksums).

(** A list without the first occurrence of [x]. *)
Fixpoint remove_first (x : string) (l : list string) : list string :=
  match l with
  | [] => []
  | y :: l' => if String.eqb y x then l' else y :: remove_first x l'
  end.

(** Both maps have the key, with different digests. *)
Definition digest_differs (pre cur : gmap string string) (key : string)
  : bool :=
  match pre !! key, cur !! key with
  | Some d1, Some d2 => negb (String.eqb d1 d2)
  | _, _ => false
  end.

(** An observation without its walk before the sleep. *)
Definition forget_walk_pre (o : observation) : observation :=
  Observation (o_exists o) [] (o_fs_pre o) (o_walk_cur o) (o_fs_cur o).

(** One group as [pretty_compare] lays it out: the label, a line of dashes,
    then every path on a line of its own. *)
Definition group_block (g : group) : string :=
  fst g +:+ newline +:+ times "-" (String.length (fst g)) +:+ newline
    +:+ String.concat "" (map (λ p, p +:+ newline) (snd g)).

(** ** Concrete inputs used by the examples below *)

Module Ex.

(** A stand-in digest for the examples: the content itself, so that two
    files have equal digests exactly when they have equal bytes. *)
Definition digest (s : string) : string := s.

(** Tree [/a] holds [x.txt]; tree [/b] holds [x.txt] with other bytes of
    the same size, [y.txt], and an empty directory [d]. *)
Definition fs_ab : FS := λ p,
  if String.eqb p "/a/x.txt" then Some (File "aaaa" 1)
  else if String.eqb p "/b/x.txt" then Some (File "bbbb" 1)
  else if String.eqb p "/b/y.txt" then Some (File "" 2)
  else None.

Definition tree_a : snapshot := [("/a", [], ["x.txt"])].

Definition tree_b : snapshot :=
  [("/b", ["d"], ["x.txt"; "y.txt"]); ("/b/d", [], [])].

(** The watched directory [/w] holds [a.txt]; between two walks its
    three bytes are rewritten: same size, later modification time. *)
Definition fs_foo : FS := λ p,
  if String.eqb p "/w/a.txt" then Some (File "foo" 1) else None.

Definition fs_bar : FS := λ p,
  if String.eqb p "/w/a.txt" then Some (File "bar" 2) else None.

Definition tree_w : snapshot := [("/w", [], ["a.txt"])].

(** Two identical trees, [x.txt] and a directory [d] with a file [y],
below [/a] and below [/b]; the directories list their names in different
orders and the files differ in modification times only. *)
Definition content_a : list node :=
  [NFile "x.txt" "aaaa"; NDir "d" [NFile "y" "bb"]].

Definition content_b : list node :=
  [NDir "d" [NFile "y" "bb"]; NFile "x.txt" "aaaa"].

Definition fs_copies : FS := λ p,
  if String.eqb p "/a/x.txt" then Some (File "aaaa" 1)
  else if String.eqb p "/a/d/y" then Some (File "bb" 2)
  else if String.eqb p "/b/x.txt" then Some (File "aaaa" 5)
  else if String.eqb p "/b/d/y" then Some (File "bb" 6)
  else None.

End Ex.

Module Ex2.

(** The tree of [Ex.content_a] below [/a] and an edited copy below [/c]:
    [x.txt] has other bytes of the same size. *)
Definition content_c : list node :=
  [NFile "x.txt" "bbbb"; NDir "d" [NFile "y" "bb"]].

Definition fs_edit : FS := λ p,
  if String.eqb p "/a/x.txt" then Some (File "aaaa" 1)
  else if String.eqb p "/a/d/y" then Some (File "bb" 2)
  else if String.eqb p "/c/x.txt" then Some (File "bbbb" 3)
  else if String.eqb p "/c/d/y" then Some (File "bb" 2)
  else None.

End Ex2.

(** ** Facts about strings, paths and walks *)

Section Strings.

Lemma app_empty_r s : s +:+ "" = s.
Proof. induction s; simpl; congruence. Qed.

Lemma app_assoc' a b c : (a +:+ b) +:+ c = a +:+ (b +:+ c).
Proof. induction a; simpl; congruence. Qed.

Lemma prefix_true p s : String.prefix p s = true ↔ prefixes p s.
Proof.
  revert s. induction p as [|c p IH]; intros s.
  - split; [by exists s|]. by destruct s.
  - destruct s as [|d s]; simpl.
    + split; [done|]. by intros [t Ht].
    + destruct (ascii_dec c d) as [->|Hne].
      * rewrite IH. split; intros [t Ht]; exists t; simpl in *; congruence.
      * split; [done|]. intros [t Ht]. simpl in Ht. congruence.
Qed.

Lemma drop_app p t : Str.drop (String.length p) (p +:+ t) = t.
Proof. induction p; [by destruct t|done]. Qed.

Lemma erase_first_prefix p t : Str.erase_first (p +:+ t) p = t.
Proof.
  assert (String.prefix p (p +:+ t) = true) as H by (apply prefix_true; by exists t).
  destruct p, t; simpl in *; rewrite ?H; try done; by rewrite ?drop_app.
Qed.

Lemma prefixes_refl s : prefixes s s.
Proof. exists "". by rewrite app_empty_r. Qed.

Lemma prefixes_trans p q s : prefixes p q → prefixes q s → prefixes p s.
Proof. intros [t ->] [u ->]. exists (t +:+ u). by rewrite app_assoc'. Qed.

Lemma prefixes_empty s : prefixes "" s.
Proof. by exists s. Qed.

Lemma prefixes_cons c p d s : prefixes (String c p) (String d s) ↔ c = d ∧ prefixes p s.
Proof.
  split.
  - intros [t Ht]. simpl in Ht. injection Ht as -> ->. split; [done|by exists t].
  - intros [-> [t ->]]. by exists t.
Qed.

Lemma prefixes_antisym p q : prefixes p q → prefixes q p → p = q.
Proof.
  revert q. induction p as [|c p IH]; intros [|d q] Hpq Hqp; try done.
  - by destruct Hqp as [t Ht].
  - by destruct Hpq as [t Ht].
  - apply prefixes_cons in Hpq as [-> Hpq]. apply prefixes_cons in Hqp as [_ Hqp].
    f_equal. by apply IH.
Qed.

Lemma lcp_prefixes_l s t : prefixes (Str.lcp s t) s.
Proof.
  revert t. induction s as [|c s IH]; intros [|d t]; simpl; try apply prefixes_empty.
  destruct (Ascii.eqb_spec c d) as [->|]; [|apply prefixes_empty].
  by apply prefixes_cons.
Qed.

Lemma lcp_prefixes_r s t : prefixes (Str.lcp s t) t.
Proof.
  revert t. induction s as [|c s IH]; intros [|d t]; simpl; try apply prefixes_empty.
  destruct (Ascii.eqb_spec c d) as [->|]; [|apply prefixes_empty].
  by apply prefixes_cons.
Qed.

Lemma lcp_greatest p s t : prefixes p s → prefixes p t → prefixes p (Str.lcp s t).
Proof.
  revert s t. induction p as [|c p IH]; intros s t Hs Ht; [apply prefixes_empty|].
  destruct s as [|d s]; [by destruct Hs|]. destruct t as [|e t]; [by destruct Ht|].
  apply prefixes_cons in Hs as [<- Hs]. apply prefixes_cons in Ht as [<- Ht].
  simpl. rewrite Ascii.eqb_refl. apply prefixes_cons. auto.
Qed.

Lemma commonprefix_prefixes x m :
  Forall (prefixes (Path.commonprefix (x :: m))) (x :: m).
Proof.
  unfold Path.commonprefix. revert x. induction m as [|y m IH]; intros x.
  - repeat constructor. apply prefixes_refl.
  - cbn [foldl]. specialize (IH (Str.lcp x y)).
    apply Forall_cons in IH as [H1 H2].
    repeat constructor; [| |done].
    + eapply prefixes_trans; [done|apply lcp_prefixes_l].
    + eapply prefixes_trans; [done|apply lcp_prefixes_r].
Qed.

Lemma commonprefix_greatest p x m :
  Forall (prefixes p) (x :: m) → prefixes p (Path.commonprefix (x :: m)).
Proof.
  unfold Path.commonprefix. revert x. induction m as [|y m IH]; intros x H.
  - by apply Forall_cons in H as [H _].
  - cbn [foldl]. apply Forall_cons in H as [Hx H]. apply Forall_cons in H as [Hy H].
    apply IH. constructor; [|done]. by apply lcp_greatest.
Qed.

Lemma endswith_app a b t : Str.endswith b t = true → Str.endswith (a +:+ b) t = true.
Proof.
  intros H. induction a as [|c a IH]; [done|].
  cbn [String.append Str.endswith]. rewrite IH. apply orb_true_r.
Qed.

Lemma endswith_refl s : Str.endswith s s = true.
Proof. destruct s; cbn [Str.endswith]; by rewrite String.eqb_refl. Qed.

Lemma erase_first_unfold s sub :
  Str.erase_first s sub =
  if String.prefix sub s then Str.drop (String.length sub) s
  else match s with
       | "" => ""
       | String c s' => String c (Str.erase_first s' sub)
       end.
Proof. by destruct s. Qed.

Lemma erase_first_leftmost s sub :
  (∃ pre post,
     s = pre +:+ sub +:+ post ∧
     Str.erase_first s sub = pre +:+ post ∧
     ∀ pre' post', s = pre' +:+ sub +:+ post' →
                   String.length pre ≤ String.length pre') ∨
  (¬ occurs_in sub s ∧ Str.erase_first s sub = s).
Proof.
  induction s as [|c s IH]; rewrite erase_first_unfold.
  - destruct (String.prefix sub "") eqn:Hp.
    + left. apply prefix_true in Hp as [t Ht]. exists "", t.
      split_and!; [done| |intros; simpl; lia].
      rewrite Ht at 1. apply drop_app.
    + right. split; [|done]. intros (pre & post & H).
      destruct pre; [|done].
      assert (String.prefix sub "" = true) as Hp'
        by (apply prefix_true; by exists post).
      congruence.
  - destruct (String.prefix sub (String c s)) eqn:Hp.
    + left. apply prefix_true in Hp as [t Ht]. exists "", t.
      split_and!; [done| |intros; simpl; lia].
      rewrite Ht at 1. apply drop_app.
    + assert (Hfront : ∀ post, String c s ≠ sub +:+ post).
      { intros post H.
        assert (String.prefix sub (String c s) = true) as Hp'
          by (apply prefix_true; by exists post).
        congruence. }
      destruct IH as [(pre & post & Hs & He & Hmin)|[Hno He]].
      * left. exists (String c pre), post. split_and!.
        -- simpl. by rewrite Hs at 1.
        -- simpl. by rewrite He.
        -- intros [|d pre'] post' H; [by destruct (Hfront post')|].
           simpl in H. injection H as _ H. apply Hmin in H. simpl. lia.
      * right. split; [|by rewrite He].
        intros ([|d pre] & post & H); [by destruct (Hfront post)|].
        simpl in H. injection H as _ H. apply Hno. by exists pre, post.
Qed.

(** join *)
Lemma with_sep_eq a :
  with_sep a = if String.eqb a "" || Str.endswith a "/" then a else a +:+ "/".
Proof.
  unfold with_sep, Path.join.
  change (Str.startswith "" "/") with false. cbv iota.
  destruct (String.eqb a "" || Str.endswith a "/"); [apply app_empty_r|].
  by rewrite app_empty_r.
Qed.

Lemma join_rel a b :
  Str.startswith b "/" = false →
  Path.join a b = with_sep a +:+ b.
Proof.
  intros Hb. rewrite with_sep_eq. unfold Path.join. rewrite Hb.
  destruct (String.eqb a "" || Str.endswith a "/"); [done|].
  by rewrite !app_assoc'.
Qed.

Lemma app_empty_inv a b : a +:+ b = "" → a = "" ∧ b = "".
Proof. by destruct a. Qed.

Lemma endswith_sep_app a x :
  x ≠ "" → Str.endswith (a +:+ x) "/" = Str.endswith x "/".
Proof.
  intros Hx. induction a as [|c a IH]; [done|].
  cbn [String.append Str.endswith]. rewrite IH.
  destruct (String.eqb_spec (String c (a +:+ x)) "/") as [H|]; [|done].
  injection H as _ H. by apply app_empty_inv in H as [_ ?].
Qed.

Lemma with_sep_app top x :
  with_sep (with_sep top +:+ x) = with_sep top +:+ with_sep x.
Proof.
  destruct (String.eqb_spec x "") as [->|Hx].
  - rewrite app_empty_r. rewrite (with_sep_eq (with_sep top)).
    rewrite (with_sep_eq top).
    destruct (String.eqb_spec top "") as [->|Ht]; [done|]. cbn [orb].
    destruct (Str.endswith top "/") eqn:He.
    + by rewrite He, orb_true_r, app_empty_r.
    + rewrite (endswith_app top "/" "/") by done.
      by rewrite orb_true_r, app_empty_r.
  - rewrite (with_sep_eq (_ +:+ x)), (with_sep_eq x).
    rewrite endswith_sep_app by done.
    destruct (String.eqb_spec x "") as [|_]; [done|].
    destruct (String.eqb_spec (with_sep top +:+ x) "") as [H|_];
      [by apply app_empty_inv in H as [_ ?]|].
    cbn [orb]. destruct (Str.endswith x "/"); [done|].
    by rewrite app_assoc'.
Qed.

Lemma join_with_sep_app top x n :
  Str.startswith n "/" = false →
  Path.join (with_sep top +:+ x) n = with_sep top +:+ Path.join x n.
Proof.
  intros Hn. rewrite !join_rel by done.
  by rewrite with_sep_app, app_assoc'.
Qed.

Lemma with_sep_prefixes a : prefixes a (with_sep a).
Proof.
  rewrite with_sep_eq. destruct (_ || _); [apply prefixes_refl|by exists "/"].
Qed.

Lemma node_ind' (P : node → Prop) :
  (∀ name data, P (NFile name data)) →
  (∀ name children, Forall P children → P (NDir name children)) →
  ∀ n, P n.
Proof.
  intros Hf Hd. fix IH 1. intros [name data|name children]; [apply Hf|].
  apply Hd. induction children as [|n children IHc]; constructor;
    [apply IH|apply IHc].
Qed.

Lemma walk_node_dir top name children :
  walk_node top (NDir name children) = os_walk (Path.join top name) children.
Proof. done. Qed.

Lemma valid_name_start name :
  valid_name name = true → Str.startswith name "/" = false.
Proof.
  unfold valid_name. destruct name as [|c name]; [done|].
  cbn [String.eqb negb andb Str.contains]. unfold Str.startswith.
  cbn [String.prefix]. intros [Hc _]%negb_true_iff%orb_false_iff.
  destruct (ascii_dec "/" c) as [<-|]; [done|done].
Qed.

Lemma valid_name_nonempty name : valid_name name = true → name ≠ "".
Proof. by destruct name. Qed.

Lemma full_listing_cons root dirs files t :
  full_listing ((root, dirs, files) :: t)
  = map (Path.join root) (files ++ map with_sep dirs) ++ full_listing t.
Proof. done. Qed.

Lemma full_listing_app t t' :
  full_listing (t ++ t') = full_listing t ++ full_listing t'.
Proof. unfold full_listing. apply flat_map_app. Qed.

Lemma full_listing_flat_map {A} (f : A → snapshot) (l : list A) :
  full_listing (flat_map f l) = flat_map (λ x, full_listing (f x)) l.
Proof.
  induction l as [|x l IH]; [done|].
  cbn [flat_map]. by rewrite full_listing_app, IH.
Qed.

Lemma prefix_empty s : String.prefix "" s = true.
Proof. by destruct s. Qed.

Lemma startswith_app a b :
  a ≠ "" → Str.startswith (a +:+ b) "/" = Str.startswith a "/".
Proof.
  intros Ha. destruct a as [|c a]; [done|].
  unfold Str.startswith. cbn [String.append String.prefix].
  destruct (ascii_dec "/" c); [|done]. by rewrite !prefix_empty.
Qed.

Lemma with_sep_start d :
  valid_name d = true → Str.startswith (with_sep d) "/" = false.
Proof.
  intros Hd. pose proof (valid_name_start d Hd) as Hs.
  rewrite with_sep_eq. destruct (_ || _); [done|].
  rewrite startswith_app; [done|by apply valid_name_nonempty].
Qed.

Lemma with_sep_end d :
  valid_name d = true → Str.endswith (with_sep d) "/" = true.
Proof.
  intros Hd%valid_name_nonempty. rewrite with_sep_eq.
  destruct (String.eqb_spec d ""); [done|]. cbn [orb].
  destruct (Str.endswith d "/") eqn:He; [done|].
  by apply endswith_app.
Qed.

Lemma valid_file_names children :
  forallb valid_node children = true →
  Forall (λ n, valid_name n = true) (file_names children).
Proof.
  induction children as [|[name data|name ch] children IH];
    cbn [forallb valid_node file_names omap list_omap];
    [by constructor| |].
  - intros [? ?]%andb_true_iff. constructor; auto.
  - intros [? ?]%andb_true_iff. auto.
Qed.

Lemma valid_dir_names children :
  forallb valid_node children = true →
  Forall (λ n, valid_name n = true) (dir_names children).
Proof.
  induction children as [|[name data|name ch] children IH];
    cbn [forallb valid_node dir_names omap list_omap];
    [by constructor| |].
  - intros [? ?]%andb_true_iff. auto.
  - intros [[? ?]%andb_true_iff ?]%andb_true_iff. constructor; auto.
Qed.

Lemma relocated_root top : relocated (with_sep top) top "".
Proof. intros n Hn. by rewrite !join_rel. Qed.

Lemma relocated_join top a b name :
  relocated (with_sep top) a b → valid_name name = true →
  relocated (with_sep top) (Path.join a name) (Path.join b name).
Proof.
  intros Hab Hname n Hn. rewrite (Hab name) by by apply valid_name_start.
  by apply join_with_sep_app.
Qed.

Lemma listing_entry_relocated top a b children :
  relocated (with_sep top) a b →
  forallb valid_node children = true →
  map (Path.join a) (file_names children ++ map with_sep (dir_names children))
  = map (String.append (with_sep top))
      (map (Path.join b)
         (file_names children ++ map with_sep (dir_names children))).
Proof.
  intros Hab Hv. rewrite map_map. apply map_ext_Forall.
  apply Forall_app. split.
  - eapply Forall_impl; [by apply valid_file_names|].
    intros n Hn. by apply Hab, valid_name_start.
  - apply Forall_map. eapply Forall_impl; [by apply valid_dir_names|].
    intros n Hn. by apply Hab, with_sep_start.
Qed.

Lemma full_listing_relocated top children :
  ∀ a b, relocated (with_sep top) a b →
  forallb valid_node children = true →
  full_listing (os_walk a children)
  = map (String.append (with_sep top)) (full_listing (os_walk b children)).
Proof.
  assert (Hnode : ∀ n a b, relocated (with_sep top) a b →
    valid_node n = true →
    full_listing (walk_node a n)
    = map (String.append (with_sep top)) (full_listing (walk_node b n))).
  { induction n as [name data|name ch IH] using node_ind'; [done|].
    intros a b Hab [Hname Hch]%andb_true_iff.
    rewrite !walk_node_dir. unfold os_walk.
    rewrite !full_listing_cons.
    pose proof (relocated_join _ _ _ _ Hab Hname) as Hab'.
    rewrite (listing_entry_relocated top (Path.join a name)
               (Path.join b name)) by done.
    rewrite (map_app _ (map _ _)).
    f_equal. rewrite !full_listing_flat_map.
    clear Hname. induction ch as [|n ch IHch]; [done|].
    apply Forall_cons in IH as [IHn IH].
    cbn [forallb] in Hch. apply andb_true_iff in Hch as [Hn Hch].
    cbn [flat_map]. rewrite map_app. f_equal; [by apply IHn|by apply IHch]. }
  intros a b Hab Hv. unfold os_walk.
  rewrite !full_listing_cons.
  rewrite (listing_entry_relocated top a b) by done.
  rewrite (map_app _ (map _ _)).
  f_equal. rewrite !full_listing_flat_map.
  induction children as [|n ch IHch]; [done|].
  cbn [forallb] in Hv. apply andb_true_iff in Hv as [Hn Hch].
  cbn [flat_map]. rewrite map_app. f_equal; [by apply Hnode|by apply IHch].
Qed.

Lemma tree_files_relocated top children :
  ∀ a b, relocated (with_sep top) a b →
  forallb valid_node children = true →
  tree_files a children
  = map (relocate_file (with_sep top)) (tree_files b children).
Proof.
  assert (Hnode : ∀ n a b, relocated (with_sep top) a b →
    valid_node n = true →
    node_files a n = map (relocate_file (with_sep top)) (node_files b n)).
  { induction n as [name data|name ch IH] using node_ind'.
    - intros a b Hab Hname. cbn [node_files map]. unfold relocate_file.
      cbn [fst snd]. by rewrite (Hab name) by by apply valid_name_start.
    - intros a b Hab [Hname Hch]%andb_true_iff. cbn [node_files].
      pose proof (relocated_join _ _ _ _ Hab Hname) as Hab'.
      clear Hname. induction ch as [|n ch IHch]; [done|].
      apply Forall_cons in IH as [IHn IH].
      cbn [forallb] in Hch. apply andb_true_iff in Hch as [Hn Hch].
      cbn [flat_map]. rewrite map_app.
      f_equal; [by apply IHn|by apply IHch]. }
  intros a b Hab Hv. unfold tree_files.
  induction children as [|n ch IHch]; [done|].
  cbn [forallb] in Hv. apply andb_true_iff in Hv as [Hn Hch].
  cbn [flat_map]. rewrite map_app. f_equal; [by apply Hnode|by apply IHch].
Qed.

Lemma elem_of_flat_map {A B} (f : A → list B) (l : list A) (y : B) :
  y ∈ flat_map f l ↔ ∃ x, x ∈ l ∧ y ∈ f x.
Proof.
  rewrite list_elem_of_In, in_flat_map.
  split; intros (x & H1 & H2); exists x; by rewrite ?list_elem_of_In in *.
Qed.

Lemma elem_of_map {A B} (f : A → B) (l : list A) (y : B) :
  y ∈ map f l ↔ ∃ x, y = f x ∧ x ∈ l.
Proof. apply (list_elem_of_fmap f l y). Qed.

Lemma file_names_elem name children :
  name ∈ file_names children ↔ ∃ data, NFile name data ∈ children.
Proof.
  unfold file_names. rewrite list_elem_of_omap. split.
  - intros ([n d|n ch] & Hin & [= <-]). by exists d.
  - intros [d Hd]. by exists (NFile name d).
Qed.

Lemma forallb_valid_elem n children :
  forallb valid_node children = true → n ∈ children → valid_node n = true.
Proof.
  rewrite forallb_forall. intros H Hin. by apply H, list_elem_of_In.
Qed.

(** Every path of a listing that does not end with the separator is the
    path of a file of the tree. *)
Lemma listing_file_path children :
  ∀ b p, forallb valid_node children = true →
  p ∈ full_listing (os_walk b children) →
  is_dir_path p = false →
  ∃ d, (p, d) ∈ tree_files b children.
Proof.
  assert (Hentry : ∀ b ch p, forallb valid_node ch = true →
    p ∈ map (Path.join b) (file_names ch ++ map with_sep (dir_names ch)) →
    is_dir_path p = false →
    ∃ d, (p, d) ∈ tree_files b ch).
  { intros b ch p Hv (n & -> & [Hn|Hn]%elem_of_app)%elem_of_map Hp.
    - apply file_names_elem in Hn as [d Hd]. exists d.
      apply elem_of_flat_map. exists (NFile n d). split; [done|].
      cbn [node_files]. by apply list_elem_of_singleton.
    - apply elem_of_map in Hn as (d & -> & Hd).
      assert (valid_name d = true) as Hvd.
      { pose proof (valid_dir_names ch Hv) as Hall.
        rewrite Forall_forall in Hall. by apply Hall. }
      unfold is_dir_path in Hp.
      rewrite join_rel, endswith_app in Hp;
        [done|by apply with_sep_end|by apply with_sep_start]. }
  assert (Hnode : ∀ n b p, valid_node n = true →
    p ∈ full_listing (walk_node b n) →
    is_dir_path p = false →
    ∃ d, (p, d) ∈ node_files b n).
  { induction n as [name data|name ch IH] using node_ind'.
    - intros b p _ Hp. cbn in Hp. by apply elem_of_nil in Hp.
    - intros b p [Hname Hch]%andb_true_iff Hp Hnd.
      rewrite walk_node_dir in Hp. unfold os_walk in Hp.
      rewrite full_listing_cons in Hp. apply elem_of_app in Hp as [Hp|Hp].
      + by apply Hentry.
      + rewrite full_listing_flat_map in Hp.
        apply elem_of_flat_map in Hp as (n & Hn & Hp).
        rewrite Forall_forall in IH.
        destruct (IH n Hn (Path.join b name) p) as [d Hd];
          [by eapply forallb_valid_elem|done|done|].
        exists d. cbn [node_files]. apply elem_of_flat_map. by exists n. }
  intros b p Hv Hp Hnd. unfold os_walk in Hp.
  rewrite full_listing_cons in Hp. apply elem_of_app in Hp as [Hp|Hp].
  - by apply Hentry.
  - rewrite full_listing_flat_map in Hp.
    apply elem_of_flat_map in Hp as (n & Hn & Hp).
    destruct (Hnode n b p) as [d Hd];
      [by eapply forallb_valid_elem|done|done|].
    exists d. apply elem_of_flat_map. by exists n.
Qed.

Lemma join_start b n :
  Str.startswith b "/" = false → Str.startswith n "/" = false →
  Str.startswith (Path.join b n) "/" = false.
Proof.
  intros Hb Hn. rewrite join_rel by done.
  destruct (String.eqb_spec b "") as [->|Hne]; [done|].
  rewrite with_sep_eq. destruct (_ || _).
  - by rewrite startswith_app.
  - rewrite app_assoc'. by rewrite startswith_app.
Qed.

Lemma listing_rel_start children :
  ∀ b p, Str.startswith b "/" = false →
  forallb valid_node children = true →
  p ∈ full_listing (os_walk b children) →
  Str.startswith p "/" = false.
Proof.
  assert (Hentry : ∀ b ch p, Str.startswith b "/" = false →
    forallb valid_node ch = true →
    p ∈ map (Path.join b) (file_names ch ++ map with_sep (dir_names ch)) →
    Str.startswith p "/" = false).
  { intros b ch p Hb Hv (n & -> & [Hn|Hn]%elem_of_app)%elem_of_map.
    - apply join_start; [done|]. apply valid_name_start.
      pose proof (valid_file_names ch Hv) as Hall.
      rewrite Forall_forall in Hall. by apply Hall.
    - apply elem_of_map in Hn as (d & -> & Hd).
      apply join_start; [done|]. apply with_sep_start.
      pose proof (valid_dir_names ch Hv) as Hall.
      rewrite Forall_forall in Hall. by apply Hall. }
  assert (Hnode : ∀ n b p, Str.startswith b "/" = false →
    valid_node n = true →
    p ∈ full_listing (walk_node b n) →
    Str.startswith p "/" = false).
  { induction n as [name data|name ch IH] using node_ind'.
    - intros b p _ _ Hp. cbn in Hp. by apply elem_of_nil in Hp.
    - intros b p Hb [Hname Hch]%andb_true_iff Hp.
      assert (Str.startswith (Path.join b name) "/" = false) as Hb'
        by by apply join_start, valid_name_start.
      rewrite walk_node_dir in Hp. unfold os_walk in Hp.
      rewrite full_listing_cons in Hp. apply elem_of_app in Hp as [Hp|Hp].
      + by eapply Hentry.
      + rewrite full_listing_flat_map in Hp.
        apply elem_of_flat_map in Hp as (n & Hn & Hp).
        rewrite Forall_forall in IH.
        eapply (IH n Hn); [exact Hb'|by eapply forallb_valid_elem|done]. }
  intros b p Hb Hv Hp. unfold os_walk in Hp.
  rewrite full_listing_cons in Hp. apply elem_of_app in Hp as [Hp|Hp].
  - by eapply Hentry.
  - rewrite full_listing_flat_map in Hp.
    apply elem_of_flat_map in Hp as (n & Hn & Hp).
    eapply (Hnode n); [exact Hb|by eapply forallb_valid_elem|done].
Qed.

(** The stripped listing of a walk does not depend on where the tree is. *)
Lemma commonprefix_root top (rels : list string) :
  Path.commonprefix (top :: map (String.append (with_sep top)) rels) = top.
Proof.
  apply prefixes_antisym.
  - pose proof (commonprefix_prefixes top
      (map (String.append (with_sep top)) rels)) as H.
    by apply Forall_cons in H as [H _].
  - apply commonprefix_greatest. constructor; [apply prefixes_refl|].
    apply Forall_map, Forall_forall. intros r _.
    eapply prefixes_trans; [apply with_sep_prefixes|by exists r].
Qed.

Lemma stripped_listing_walk top children :
  forallb valid_node children = true →
  stripped_listing top (full_listing (os_walk top children))
  = full_listing (os_walk "" children).
Proof.
  intros Hv. rewrite (full_listing_relocated top children top "")
    by (done || apply relocated_root).
  unfold stripped_listing. cbn [app]. rewrite commonprefix_root.
  rewrite map_map. rewrite <-(map_id (full_listing _)) at 2.
  apply map_ext. intros r. apply erase_first_prefix.
Qed.

End Strings.

(** ** Properties *)

Section Properties.

Variable md5 : string → string.

(** *** Running computations *)

Lemma bind_ret {A B} (a : A) (k : A → M B) fs :
  bind (ret a) k fs = k a fs.
Proof. unfold bind, ret. by destruct (k a fs). Qed.

(** *** Empty snapshots *)

Lemma comparison_nil_l flags t2 sc fs :
  comparison md5 flags [] t2 sc fs = ([], Raise IndexError).
Proof. done. Qed.

Lemma comparison_nil_r flags t1 sc fs :
  comparison md5 flags t1 [] sc fs = ([], Raise IndexError).
Proof.
  destruct t1 as [|[[root1 dirs1] files1] t1]; [done|].
  unfold comparison. cbn [first_root]. by rewrite bind_ret.
Qed.

(** C10: the comparison function needs both snapshots to be non-empty:
    with an empty snapshot for either tree it raises [IndexError] while
    extracting the root path, before any file is accessed, instead of
    returning empty groups. *)
Theorem comparison_empty_snapshot flags sc fs :
  (∀ t2, comparison md5 flags [] t2 sc fs = ([], Raise IndexError)) ∧
  (∀ t1, comparison md5 flags t1 [] sc fs = ([], Raise IndexError)).
Proof.
  split; intros t; [apply comparison_nil_l|apply comparison_nil_r].
Qed.

(** *** Flags without [c] and [u] *)

Lemma comparison_unbound_changed flags e1 t1 e2 t2 sc fs :
  Str.contains "c" flags = false →
  Str.contains "u" flags = false →
  comparison md5 flags (e1 :: t1) (e2 :: t2) sc fs
  = ([], Raise (UnboundLocalError "changed")).
Proof.
  intros Hc Hu.
  destruct e1 as [[root1 dirs1] files1], e2 as [[root2 dirs2] files2].
  unfold comparison. cbn [first_root]. rewrite !bind_ret.
  rewrite Hc, Hu. cbn [orb]. by rewrite bind_ret.
Qed.

(** *** The shape of [comparison] on non-empty snapshots *)

Lemma comparison_eq flags root1 dirs1 files1 t1' root2 dirs2 files2 t2'
    sc fs :
  let t1 := (root1, dirs1, files1) :: t1' in
  let t2 := (root2, dirs2, files2) :: t2' in
  let before_str := stripped_listing root1 (full_listing t1) in
  let after_str := stripped_listing root2 (full_listing t2) in
  let added := added_of before_str after_str in
  let removed := removed_of before_str after_str in
  let common := common_of added after_str in
  Str.contains "c" flags || Str.contains "u" flags = true →
  comparison md5 flags t1 t2 sc fs =
    match filterM (λ p, differing md5 p sc)
                  (common_with_roots_of root1 root2 common) fs with
    | (tr, Ok differ) =>
        let changed :=
          map (λ p, erase_from (fst p) (with_sep root1)) differ in
        let unchanged :=
          filter (λ p, ¬ p ∈ changed ∧ ¬ is_dir_path p) common in
        (tr, Ok (results_of flags
                   [("a"%char, "Added",     added);
                    ("c"%char, "Changed",   changed);
                    ("r"%char, "Removed",   removed);
                    ("s"%char, "Shared",    common);
                    ("u"%char, "Unchanged", unchanged)]))
    | (tr, Raise e) => (tr, Raise e)
    end.
Proof.
  intros t1 t2 before_str after_str added removed common Hcu.
  unfold comparison. cbn [first_root t1 t2]. rewrite !bind_ret.
  rewrite Hcu. unfold bind at 1. unfold bind at 1.
  fold t1 t2 before_str after_str added removed common.
  destruct (filterM _ _ fs) as [tr [differ|e]]; [|done].
  cbn. by rewrite !app_nil_r.
Qed.

(** A successful comparison was given non-empty snapshots and flags with
    [c] or [u]. *)
Lemma comparison_Ok_inv flags t1 t2 sc fs tr res :
  comparison md5 flags t1 t2 sc fs = (tr, Ok res) →
  (∃ e1 t1' e2 t2', t1 = e1 :: t1' ∧ t2 = e2 :: t2') ∧
  Str.contains "c" flags || Str.contains "u" flags = true.
Proof.
  intros H. destruct t1 as [|e1 t1'], t2 as [|e2 t2'];
    try by rewrite ?comparison_nil_l, ?comparison_nil_r in H.
  split; [by eauto 6|].
  destruct (Str.contains "c" flags) eqn:Hc; [done|].
  destruct (Str.contains "u" flags) eqn:Hu; [done|].
  by rewrite comparison_unbound_changed in H.
Qed.

(** *** The order of the groups *)

Lemma group_for_label f added changed removed common unchanged :
  map fst (group_for f [("a"%char, "Added",     added);
                        ("c"%char, "Changed",   changed);
                        ("r"%char, "Removed",   removed);
                        ("s"%char, "Shared",    common);
                        ("u"%char, "Unchanged", unchanged)])
  = option_list (flag_label f).
Proof.
  unfold flag_label. cbn [group_for].
  rewrite !(Ascii.eqb_sym _ f).
  by repeat (destruct (Ascii.eqb f _); [done|]).
Qed.

Lemma results_of_labels flags added changed removed common unchanged :
  map fst (results_of flags [("a"%char, "Added",     added);
                             ("c"%char, "Changed",   changed);
                             ("r"%char, "Removed",   removed);
                             ("s"%char, "Shared",    common);
                             ("u"%char, "Unchanged", unchanged)])
  = flag_labels flags.
Proof.
  unfold results_of, flag_labels.
  induction (list_ascii_of_string (Str.lower flags)) as [|f l IH]; [done|].
  change (flat_map ?g (f :: l)) with (g f ++ flat_map g l).
  rewrite map_app, group_for_label. cbn [omap list_omap].
  destruct (flag_label f); cbn [option_list app]; [f_equal|]; exact IH.
Qed.

(** C3 (amended): when the comparison returns, the labels of the groups
    it returns are the labels selected by the characters of the
    lower-cased flag string, in the order of the characters and one group
    per occurrence, so a repeated character repeats its group. *)
Theorem comparison_group_order flags t1 t2 sc fs tr res :
  comparison md5 flags t1 t2 sc fs = (tr, Ok res) →
  map fst res = flag_labels flags.
Proof.
  intros H.
  destruct (comparison_Ok_inv _ _ _ _ _ _ _ H)
    as [(e1 & t1' & e2 & t2' & -> & ->) Hcu].
  destruct e1 as [[root1 dirs1] files1], e2 as [[root2 dirs2] files2].
  rewrite comparison_eq in H by done.
  destruct (filterM _ _ fs) as [tr' [differ|e]]; [|done].
  injection H as _ <-. apply results_of_labels.
Qed.

(** *** The classification into added, removed and common *)

(** C6: for all path sequences, added is the after-paths absent from
    before, removed is the before-paths absent from after, common is the
    after-paths not in added (equivalently the after-paths that are also
    before-paths), and the three are pairwise disjoint. *)
Theorem classification_partition (before_str after_str : list string) :
  let added := added_of before_str after_str in
  let removed := removed_of before_str after_str in
  let common := common_of added after_str in
  (∀ p, p ∈ added ↔ p ∈ after_str ∧ p ∉ before_str) ∧
  (∀ p, p ∈ removed ↔ p ∈ before_str ∧ p ∉ after_str) ∧
  (∀ p, p ∈ common ↔ p ∈ after_str ∧ p ∉ added) ∧
  (∀ p, p ∈ common ↔ p ∈ after_str ∧ p ∈ before_str) ∧
  (∀ p, ¬ (p ∈ added ∧ p ∈ removed)) ∧
  (∀ p, ¬ (p ∈ added ∧ p ∈ common)) ∧
  (∀ p, ¬ (p ∈ removed ∧ p ∈ common)).
Proof.
  intros added removed common.
  assert (Ha : ∀ p, p ∈ added ↔ p ∈ after_str ∧ p ∉ before_str).
  { intros p. unfold added, added_of. rewrite list_elem_of_filter. tauto. }
  assert (Hr : ∀ p, p ∈ removed ↔ p ∈ before_str ∧ p ∉ after_str).
  { intros p. unfold removed, removed_of. rewrite list_elem_of_filter.
    tauto. }
  assert (Hc : ∀ p, p ∈ common ↔ p ∈ after_str ∧ p ∉ added).
  { intros p. unfold common, common_of. rewrite list_elem_of_filter.
    tauto. }
  split_and!; try done.
  - intros p. rewrite Hc, Ha. split; [|tauto].
    intros [Hp Hn]. split; [done|].
    destruct (decide (p ∈ before_str)); tauto.
  - intros p [[H1 _]%Ha [_ H2]%Hr]. done.
  - intros p [H1 [_ H2]%Hc]. done.
  - intros p [[_ H1]%Hr [H2 _]%Hc]. done.
Qed.

(** *** The change test *)

Lemma differing_run (fs : FS) (f1 f2 : string) (x1 x2 : file) sc :
  fs f1 = Some x1 →
  fs f2 = Some x2 →
  differing md5 (f1, f2) sc fs =
    if negb (String.length (f_data x1) =? String.length (f_data x2))%nat
    then ([Getsize f1; Getsize f2], Ok true)
    else if negb sc
    then ([Getsize f1; Getsize f2; ReadFile f1; ReadFile f2],
          Ok (negb (String.eqb (md5 (f_data x1)) (md5 (f_data x2)))))
    else ([Getsize f1; Getsize f2; Getmtime f1; Getmtime f2],
          Ok (negb (f_mtime x1 =? f_mtime x2)%Z)).
Proof.
  intros H1 H2. unfold differing, bind, ret, getsize, getmtime, checksum.
  rewrite H1, H2. destruct (negb (_ =? _)%nat); [done|].
  destruct sc; cbn [negb]; by rewrite H1, H2.
Qed.

Lemma negb_eqb_string (a b : string) :
  negb (String.eqb a b) = bool_decide (a ≠ b).
Proof.
  destruct (String.eqb_spec a b); cbn; symmetry.
  - by apply bool_decide_eq_false_2; intros ?.
  - by apply bool_decide_eq_true_2.
Qed.

Lemma negb_eqb_Z (a b : Z) : negb (a =? b)%Z = bool_decide (a ≠ b).
Proof.
  destruct (Z.eqb_spec a b); cbn; symmetry.
  - by apply bool_decide_eq_false_2; intros ?.
  - by apply bool_decide_eq_true_2.
Qed.

(** C5: for two files that exist, [differing] first compares the sizes;
    if they differ the verdict is changed and nothing else is read,
    whatever [skip_checksum] is.  If the sizes are equal, only the
    checksums are compared when [skip_checksum] is false and only the
    modification times when it is true, and the verdict is changed
    exactly when the two compared values are unequal. *)
Theorem differing_cascade (fs : FS) (f1 f2 : string) (x1 x2 : file) :
  fs f1 = Some x1 →
  fs f2 = Some x2 →
  (String.length (f_data x1) ≠ String.length (f_data x2) →
   ∀ skip_checksum,
     differing md5 (f1, f2) skip_checksum fs
     = ([Getsize f1; Getsize f2], Ok true)) ∧
  (String.length (f_data x1) = String.length (f_data x2) →
   differing md5 (f1, f2) false fs
   = ([Getsize f1; Getsize f2; ReadFile f1; ReadFile f2],
      Ok (bool_decide (md5 (f_data x1) ≠ md5 (f_data x2)))) ∧
   differing md5 (f1, f2) true fs
   = ([Getsize f1; Getsize f2; Getmtime f1; Getmtime f2],
      Ok (bool_decide (f_mtime x1 ≠ f_mtime x2)))).
Proof.
  intros H1 H2. split.
  - intros Hne sc. rewrite (differing_run fs f1 f2 x1 x2) by done.
    apply Nat.eqb_neq in Hne. by rewrite Hne.
  - intros Heq. rewrite !(differing_run fs f1 f2 x1 x2) by done.
    rewrite Heq, Nat.eqb_refl. cbn [negb].
    by rewrite negb_eqb_string, negb_eqb_Z.
Qed.

(** *** The orchestrator inside the monitor *)









(** *** The monitor without checksums *)

Lemma take_shared_unbound e pre_state' compared fs :
  group_paths "Shared" compared ≠ [] →
  take_shared (e :: pre_state') None None compared fs
  = ([], Raise (UnboundLocalError "pre_checksums")).
Proof.
  destruct e as [[root dirs] files].
  induction compared as [|[label seq] rest IH]; [done|].
  cbn [group_paths take_shared]. destruct (String.eqb label "Shared").
  - intros Hseq. destruct seq as [|fname seq]; [done|]. done.
  - intros Hrest. unfold bind. by rewrite IH.
Qed.

(** C8: when [args.skip_checksum] is true, neither [pre_checksums] nor
    [cur_checksums] is assigned (no file is read for them), and a cycle
    in which the comparison returns a non-empty Shared group raises
    [UnboundLocalError], a [NameError], for [pre_checksums]; no report
    is printed and the exception ends the loop. *)
Theorem monitor_skip_checksum_unbound (a : args)
    (cur_state : option snapshot) (o : observation)
    (world : list observation) tr compared :
  a_skip_checksum a = true →
  o_exists o = true →
  let pre_state := default (o_walk_pre o) cur_state in
  comparison md5 (flags_with_shared (a_flags a))
             pre_state (o_walk_cur o) true (o_fs_cur o)
  = (tr, Ok compared) →
  group_paths "Shared" compared ≠ [] →
  bind_checksums md5 (a_skip_checksum a) pre_state (o_fs_pre o)
  = ([], Ok None) ∧
  bind_checksums md5 (a_skip_checksum a) (o_walk_cur o) (o_fs_cur o)
  = ([], Ok None) ∧
  monitor_cycle md5 a pre_state (o_fs_pre o) (o_walk_cur o) (o_fs_cur o)
  = (tr, Raise (UnboundLocalError "pre_checksums")) ∧
  is_NameError (UnboundLocalError "pre_checksums") = true ∧
  monitor md5 a cur_state (o :: world)
  = ([], Crashed (UnboundLocalError "pre_checksums")).
Proof.
  intros Hskip Hex pre_state Hcmp Hshared.
  assert (Hcycle :
    monitor_cycle md5 a pre_state (o_fs_pre o) (o_walk_cur o) (o_fs_cur o)
    = (tr, Raise (UnboundLocalError "pre_checksums"))).
  { unfold monitor_cycle, monitor_compare. rewrite Hskip.
    change (bind_checksums md5 true pre_state (o_fs_pre o))
      with ([] : list event, Ok (None : option (gmap string string))).
    change (bind_checksums md5 true (o_walk_cur o))
      with (ret (None : option (gmap string string))).
    cbv iota. rewrite bind_ret. unfold bind at 1. rewrite Hcmp.
    destruct (comparison_Ok_inv _ _ _ _ _ _ _ Hcmp)
      as [(e1 & t1' & e2 & t2' & Hpre & _) _].
    rewrite Hpre. unfold bind.
    rewrite take_shared_unbound by done. by rewrite !app_nil_r. }
  split_and!; try done; try by rewrite Hskip.
  cbn [monitor]. rewrite Hex. cbn [negb].
  replace (match cur_state with Some s => s | None => o_walk_pre o end)
    with pre_state by by destruct cur_state.
  by rewrite Hcycle.
Qed.

(** *** Root stripping *)

(** C4 (amended): the stripped listing has one path per listed path, in
    the same order.  Let [cp] be the longest common prefix of the root and
    all listed paths and [sub] be [cp] followed by a separator unless [cp]
    is empty or already ends with one.  Each path comes back with the
    leftmost occurrence of [sub] removed, and unchanged when [sub] does not
    occur in it; so a path that starts with [sub] loses it from its
    front. *)
Theorem stripped_listing_leftmost (root : string) (l : list string) :
  let cp := Path.commonprefix (root :: l) in
  let sub := with_sep cp in
  Forall (prefixes cp) (root :: l) ∧
  (∀ p, Forall (prefixes p) (root :: l) → prefixes p cp) ∧
  sub = (if String.eqb cp "" || Str.endswith cp "/" then cp
         else cp +:+ "/") ∧
  length (stripped_listing root l) = length l ∧
  (∀ i s, l !! i = Some s →
     ∃ s', stripped_listing root l !! i = Some s' ∧
       ((∃ pre post,
           s = pre +:+ sub +:+ post ∧ s' = pre +:+ post ∧
           ∀ pre' post', s = pre' +:+ sub +:+ post' →
                         String.length pre ≤ String.length pre') ∨
        (¬ occurs_in sub s ∧ s' = s))) ∧
  (∀ i rest, l !! i = Some (sub +:+ rest) →
             stripped_listing root l !! i = Some rest).
Proof.
  intros cp sub. split_and!.
  - apply commonprefix_prefixes.
  - intros p. apply commonprefix_greatest.
  - apply with_sep_eq.
  - unfold stripped_listing. apply length_map.
  - intros i s Hi. exists (Str.erase_first s sub). split.
    + unfold stripped_listing.
      change (map ?f l) with (f <$> l). by rewrite list_lookup_fmap, Hi.
    + apply erase_first_leftmost.
  - intros i rest Hi. unfold stripped_listing.
    change (map ?f l) with (f <$> l). rewrite list_lookup_fmap, Hi.
    cbn [fmap option_fmap option_map]. f_equal. apply erase_first_prefix.
Qed.

(** *** Identical trees *)

Lemma filterM_all_false {A} (f : A → M bool) (l : list A) fs :
  Forall (λ x, snd (f x fs) = Ok false) l → snd (filterM f l fs) = Ok [].
Proof.
  induction 1 as [|x l Hx _ IH]; [done|].
  cbn [filterM]. unfold bind.
  destruct (f x fs) as [tr [b|e]]; [|done]. injection Hx as ->.
  destruct (filterM f l fs) as [tr' [r|e]]; [|done]. injection IH as ->.
  done.
Qed.

Lemma differing_same fs f1 f2 x1 x2 sc :
  fs f1 = Some x1 → fs f2 = Some x2 →
  f_data x1 = f_data x2 →
  (sc = true → f_mtime x1 = f_mtime x2) →
  snd (differing md5 (f1, f2) sc fs) = Ok false.
Proof.
  intros H1 H2 Hd Hm. rewrite (differing_run fs f1 f2 x1 x2) by done.
  rewrite Hd, Nat.eqb_refl. cbn [negb]. destruct sc; cbn [negb snd].
  - by rewrite Hm, Z.eqb_refl.
  - by rewrite String.eqb_refl.
Qed.

Lemma filter_not_elem_sub (l l' : list string) :
  (∀ p, p ∈ l → p ∈ l') → filter (λ p, ¬ p ∈ l') l = [].
Proof.
  induction l as [|x l IH]; intros Hsub; [done|].
  rewrite filter_cons_False by (intros Hn; apply Hn, Hsub; by left).
  apply IH. intros p Hp. apply Hsub. by right.
Qed.

Lemma filter_not_elem_nil (l : list string) :
  filter (λ p, ¬ p ∈ []) l = l.
Proof.
  induction l as [|x l IH]; [done|].
  rewrite filter_cons_True by apply not_elem_of_nil. by rewrite IH.
Qed.

Lemma added_of_sub (before_str after_str : list string) :
  (∀ p, p ∈ after_str → p ∈ before_str) →
  added_of before_str after_str = [].
Proof. apply filter_not_elem_sub. Qed.

Lemma removed_of_sub (before_str after_str : list string) :
  (∀ p, p ∈ before_str → p ∈ after_str) →
  removed_of before_str after_str = [].
Proof. apply filter_not_elem_sub. Qed.

Lemma common_of_nil (l : list string) : common_of [] l = l.
Proof. apply filter_not_elem_nil. Qed.

(** On the walks of two identical trees, every pair the change test is
    run on is a pair of files with the same bytes. *)
Lemma same_tree_pairs (children1 children2 : list node)
    (root1 root2 : string) (fs : FS) (sc : bool) :
  forallb valid_node children1 = true →
  forallb valid_node children2 = true →
  same_tree children1 children2 →
  holds fs root1 children1 →
  holds fs root2 children2 →
  (sc = true → same_mtimes fs root1 root2 children1) →
  Forall (λ pr, snd (differing md5 pr sc fs) = Ok false)
         (common_with_roots_of root1 root2 (rel_paths children2)).
Proof.
  intros Hv1 Hv2 [_ Hsame] H1 H2 Hm. unfold common_with_roots_of.
  apply Forall_map, Forall_forall. intros p [Hnd Hp]%list_elem_of_filter.
  apply negb_prop_elim, Is_true_false in Hnd.
  pose proof (listing_rel_start children2 "" p eq_refl Hv2 Hp) as Hstart.
  destruct (listing_file_path children2 "" p Hv2 Hp Hnd) as [d Hd2].
  assert ((p, d) ∈ rel_files children1) as Hd1 by by apply Hsame.
  pose proof (tree_files_relocated root1 children1 root1 ""
                (relocated_root root1) Hv1) as E1.
  pose proof (tree_files_relocated root2 children2 root2 ""
                (relocated_root root2) Hv2) as E2.
  unfold holds in H1, H2. rewrite Forall_forall in H1, H2.
  specialize (H1 (with_sep root1 +:+ p, d)).
  specialize (H2 (with_sep root2 +:+ p, d)). cbn [fst snd] in H1, H2.
  assert (Hm' : sc = true →
            f_mtime <$> fs (Path.join root1 p)
            = f_mtime <$> fs (Path.join root2 p))
    by (intros Hsc; by apply (Hm Hsc p d)).
  rewrite !join_rel in Hm' by done. rewrite !join_rel by done.
  destruct (fs (with_sep root1 +:+ p)) as [x1|] eqn:Hx1.
  2:{ discriminate H1. rewrite E1. apply elem_of_map. by exists (p, d). }
  destruct (fs (with_sep root2 +:+ p)) as [x2|] eqn:Hx2.
  2:{ discriminate H2. rewrite E2. apply elem_of_map. by exists (p, d). }
  assert (f_data x1 = d) as Hdata1.
  { enough (Some (f_data x1) = Some d) as [= ?] by done.
    apply H1. rewrite E1. apply elem_of_map. by exists (p, d). }
  assert (f_data x2 = d) as Hdata2.
  { enough (Some (f_data x2) = Some d) as [= ?] by done.
    apply H2. rewrite E2. apply elem_of_map. by exists (p, d). }
  apply (differing_same fs _ _ x1 x2); [done|done|congruence|].
  intros Hsc. specialize (Hm' Hsc). by injection Hm'.
Qed.

(** C7: for two identical trees below two roots (the same relative paths,
    the same bytes in every file), on a file system that holds both, the
    comparison with flags ["acr"] returns an empty Added, an empty Changed
    and an empty Removed group.  This holds with the default
    [skip_checksum] false; when modification times are compared instead,
    it holds if the corresponding files also have equal modification
    times. *)
Theorem identical_trees_no_difference (children1 children2 : list node)
    (root1 root2 : string) (fs : FS) (skip_checksum : bool) :
  forallb valid_node children1 = true →
  forallb valid_node children2 = true →
  same_tree children1 children2 →
  holds fs root1 children1 →
  holds fs root2 children2 →
  (skip_checksum = true → same_mtimes fs root1 root2 children1) →
  snd (comparison md5 "acr" (os_walk root1 children1)
                  (os_walk root2 children2) skip_checksum fs)
  = Ok [("Added", []); ("Changed", []); ("Removed", [])].
Proof.
  intros Hv1 Hv2 Hsame H1 H2 Hm.
  pose proof (filterM_all_false
                (λ p, differing md5 p skip_checksum)
                (common_with_roots_of root1 root2 (rel_paths children2)) fs
                (same_tree_pairs children1 children2 root1 root2 fs
                   skip_checksum Hv1 Hv2 Hsame H1 H2 Hm)) as Hpairs.
  destruct Hsame as [Hpaths _].
  rewrite (comparison_eq "acr" root1 (dir_names children1)
             (file_names children1) (flat_map (walk_node root1) children1)
             root2 (dir_names children2) (file_names children2)
             (flat_map (walk_node root2) children2)) by done.
  fold (os_walk root1 children1). fold (os_walk root2 children2).
  rewrite !stripped_listing_walk by done.
  fold (rel_paths children1). fold (rel_paths children2).
  rewrite (added_of_sub (rel_paths children1) (rel_paths children2))
    by (intros p; apply Hpaths).
  rewrite (removed_of_sub (rel_paths children1) (rel_paths children2))
    by (intros p; apply Hpaths).
  rewrite common_of_nil.
  destruct (filterM _ _ fs) as [tr [differ|e]]; [|done].
  injection Hpairs as ->. done.
Qed.

End Properties.

(** ** Further properties *)

Section Further.

Variable md5 : string → string.

(** *** Sorting *)

Lemma insert_sorted_perm x l : Str.insert_sorted x l ≡ₚ x :: l.
Proof.
  induction l as [|y l IH]; [done|].
  cbn [Str.insert_sorted]. destruct (String.leb x y); [done|].
  rewrite IH. apply Permutation_swap.
Qed.

Lemma sorted_perm l : Str.sorted l ≡ₚ l.
Proof.
  induction l as [|x l IH]; [done|].
  unfold Str.sorted in *. cbn [foldr]. by rewrite insert_sorted_perm, IH.
Qed.

Lemma insert_sorted_Sorted x l :
  Sorted String.le l → Sorted String.le (Str.insert_sorted x l).
Proof.
  induction 1 as [|y l Hl IH Hhd]; [by repeat constructor|].
  cbn [Str.insert_sorted]. destruct (String.leb x y) eqn:Hxy.
  - constructor; [by constructor|]. constructor. unfold String.le. by rewrite Hxy.
  - assert (String.le y x) as Hyx.
    { destruct (String.leb_total x y) as [H|H]; [congruence|].
      unfold String.le. by rewrite H. }
    constructor; [done|].
    destruct l as [|z l]; cbn [Str.insert_sorted]; [by constructor|].
    destruct (String.leb x z); constructor; [done|].
    by inversion Hhd.
Qed.

Lemma sorted_Sorted l : Sorted String.le (Str.sorted l).
Proof.
  induction l as [|x l IH]; [constructor|].
  unfold Str.sorted in *. cbn [foldr]. by apply insert_sorted_Sorted.
Qed.

Lemma elem_of_sorted p l : p ∈ Str.sorted l ↔ p ∈ l.
Proof. by rewrite sorted_perm. Qed.

(** *** Filtering with an effectful test *)

Lemma filterM_Ok {A} (f : A → M bool) l fs tr r :
  filterM f l fs = (tr, Ok r) →
  Forall (λ x, returns (f x fs)) l ∧
  r = filter (λ x, says_true (f x fs)) l.
Proof.
  revert tr r. induction l as [|x l IH]; intros tr r H.
  - injection H as _ <-. by split; [constructor|].
  - cbn [filterM] in H. unfold bind in H.
    destruct (f x fs) as [tr1 [b|e]] eqn:Hx; [|done].
    destruct (filterM f l fs) as [tr2 [r'|e]]; [|done].
    destruct (IH _ _ eq_refl) as [Hall ->]. injection H as _ <-.
    split; [constructor; [rewrite Hx; by exists b|done]|].
    destruct b.
    + rewrite filter_cons_True; [done|]. unfold says_true. by rewrite Hx.
    + rewrite filter_cons_False; [done|]. unfold says_true. rewrite Hx.
      by intros ?.
Qed.

Lemma filterM_returns {A} (f : A → M bool) l fs :
  Forall (λ x, returns (f x fs)) l → returns (filterM f l fs).
Proof.
  induction 1 as [|x l [b Hx] _ [r IH]]; [by exists []|].
  cbn [filterM]. unfold bind.
  destruct (f x fs) as [tr1 [b'|e]]; [|done].
  destruct (filterM f l fs) as [tr2 [r'|e]]; [|done].
  by eexists.
Qed.

Lemma filter_none {A} (P : A → Prop) `{∀ x, Decision (P x)} (l : list A) :
  Forall (λ x, ¬ P x) l → filter P l = [].
Proof.
  induction 1 as [|x l Hx _ IH]; [done|]. by rewrite filter_cons_False.
Qed.

(** *** Files that are missing *)

Lemma differing_missing_first fs f1 f2 sc :
  fs f1 = None →
  differing md5 (f1, f2) sc fs = ([Getsize f1], Raise (OSError f1)).
Proof.
  intros H. unfold differing, bind, getsize. by rewrite H.
Qed.

Lemma differing_missing_second fs f1 f2 x1 sc :
  fs f1 = Some x1 → fs f2 = None →
  differing md5 (f1, f2) sc fs
  = ([Getsize f1; Getsize f2], Raise (OSError f2)).
Proof.
  intros H1 H2. unfold differing, bind, getsize. by rewrite H1, H2.
Qed.

Lemma differing_present fs f1 f2 sc :
  is_Some (fs f1) → is_Some (fs f2) →
  returns (differing md5 (f1, f2) sc fs).
Proof.
  intros [x1 H1] [x2 H2]. rewrite (differing_run md5 fs f1 f2 x1 x2) by done.
  destruct (negb _); [by eexists|]. destruct (negb sc); by eexists.
Qed.


Lemma differing_self fs f sc b :
  snd (differing md5 (f, f) sc fs) = Ok b → b = false.
Proof.
  intros H. destruct (fs f) as [x|] eqn:Hf.
  - rewrite (differing_run md5 fs f f x x) in H by done.
    rewrite Nat.eqb_refl, String.eqb_refl, Z.eqb_refl in H.
    cbn [negb] in H. destruct (negb sc); by injection H.
  - by rewrite differing_missing_first in H.
Qed.

(** X3: when the first file is missing, [differing] raises [OSError] for
    it after the one size query; when the first is there and the second
    is missing, it raises [OSError] for the second after the two size
    queries.  In neither case is a checksum or a modification time read,
    whatever [skip_checksum] is. *)
Theorem differing_missing_file (fs : FS) (f1 f2 : string) (sc : bool) :
  (fs f1 = None →
   differing md5 (f1, f2) sc fs = ([Getsize f1], Raise (OSError f1))) ∧
  (is_Some (fs f1) → fs f2 = None →
   differing md5 (f1, f2) sc fs
   = ([Getsize f1; Getsize f2], Raise (OSError f2))).
Proof.
  split.
  - apply differing_missing_first.
  - intros [x1 H1]. by apply (differing_missing_second fs f1 f2 x1).
Qed.

(** *** [get_checksums] *)

Lemma get_checksums_foldl tree :
  get_checksums md5 tree = foldl (add_checksum md5) (ret ∅) (snapshot_files tree).
Proof.
  unfold get_checksums, snapshot_files. generalize (ret (∅ : gmap string string)).
  induction tree as [|[[root dirs] files] tree IH]; intros acc; [done|].
  cbn [foldl flat_map]. rewrite foldl_app, IH. f_equal.
  clear IH. revert acc. induction files as [|f files IHf]; intros acc; [done|].
  cbn [foldl map]. by rewrite IHf.
Qed.

Lemma add_checksum_Ok acc fname fs tr m x :
  acc fs = (tr, Ok m) → fs fname = Some x →
  add_checksum md5 acc fname fs
  = (tr ++ [ReadFile fname], Ok (<[fname := md5 (f_data x)]> m)).
Proof.
  intros Ha Hx. unfold add_checksum, bind, checksum, ret.
  by rewrite Ha, Hx.
Qed.

Lemma add_checksum_missing acc fname fs tr m :
  acc fs = (tr, Ok m) → fs fname = None →
  add_checksum md5 acc fname fs = (tr ++ [ReadFile fname], Raise (IOError fname)).
Proof.
  intros Ha Hx. unfold add_checksum, bind, checksum, ret.
  by rewrite Ha, Hx.
Qed.

Lemma add_checksum_raised acc l fs tr e :
  acc fs = (tr, Raise e) → foldl (add_checksum md5) acc l fs = (tr, Raise e).
Proof.
  revert acc. induction l as [|p l IH]; intros acc Ha; [done|].
  cbn [foldl]. apply IH. unfold add_checksum, bind. by rewrite Ha.
Qed.

Lemma foldl_add_checksum_Ok l fs :
  Forall (λ p, is_Some (fs p)) l →
  ∃ m, foldl (add_checksum md5) (ret ∅) l fs = (map ReadFile l, Ok m) ∧
       ∀ k, m !! k = if decide (k ∈ l)
                     then (λ x, md5 (f_data x)) <$> fs k else None.
Proof.
  induction l as [|p l IH] using rev_ind; intros Hall.
  - exists ∅. split; [done|]. intros k. rewrite lookup_empty.
    by rewrite decide_False by apply not_elem_of_nil.
  - apply Forall_app in Hall as [Hl [[x Hx] _]%Forall_cons].
    destruct (IH Hl) as (m & Hm & Hlook).
    exists (<[p := md5 (f_data x)]> m). split.
    + rewrite foldl_app. cbn [foldl].
      rewrite (add_checksum_Ok _ _ _ _ _ _ Hm Hx). by rewrite map_app.
    + intros k. destruct (decide (k = p)) as [->|Hne].
      * rewrite lookup_insert_eq, Hx.
        by rewrite decide_True by (apply elem_of_app; right; by left).
      * rewrite lookup_insert_ne by done. rewrite Hlook.
        destruct (decide (k ∈ l)) as [Hin|Hnin].
        -- by rewrite decide_True by (apply elem_of_app; by left).
        -- rewrite decide_False; [done|].
           intros [?|?%list_elem_of_singleton]%elem_of_app; done.
Qed.

(** X1: when every file the snapshot lists exists, [get_checksums] reads
    each listed file once, in walk order, and returns a map that holds
    under each listed path the digest of that file's bytes and holds no
    other key (directories are never keys). *)
Theorem get_checksums_Ok tree fs :
  Forall (λ p, is_Some (fs p)) (snapshot_files tree) →
  ∃ m, get_checksums md5 tree fs
       = (map ReadFile (snapshot_files tree), Ok m) ∧
       ∀ k, m !! k = if decide (k ∈ snapshot_files tree)
                     then (λ x, md5 (f_data x)) <$> fs k else None.
Proof. rewrite get_checksums_foldl. apply foldl_add_checksum_Ok. Qed.

(** X2: when a listed file is missing, [get_checksums] raises [IOError]
    for the first such file, having read only the files listed before it;
    no partial map is returned. *)
Theorem get_checksums_missing tree fs before p after :
  snapshot_files tree = before ++ p :: after →
  Forall (λ q, is_Some (fs q)) before →
  fs p = None →
  get_checksums md5 tree fs
  = (map ReadFile before ++ [ReadFile p], Raise (IOError p)).
Proof.
  intros Hfiles Hall Hp. rewrite get_checksums_foldl, Hfiles, foldl_app.
  destruct (foldl_add_checksum_Ok before fs Hall) as (m & Hm & _).
  cbn [foldl]. apply add_checksum_raised.
  by apply (add_checksum_missing _ _ _ _ m).
Qed.

(** *** When [comparison] returns *)

Lemma comparison_returns_if flags t1 t2 sc fs :
  t1 ≠ [] → t2 ≠ [] →
  Str.contains "c" flags = true ∨ Str.contains "u" flags = true →
  Forall (λ pr, is_Some (fs (fst pr)) ∧ is_Some (fs (snd pr)))
         (compared_pairs t1 t2) →
  returns (comparison md5 flags t1 t2 sc fs).
Proof.
  intros H1 H2 Hcu%orb_true_iff Hall.
  destruct t1 as [|[[root1 dirs1] files1] t1']; [done|].
  destruct t2 as [|[[root2 dirs2] files2] t2']; [done|].
  rewrite comparison_eq by done. cbn [compared_pairs] in Hall.
  assert (returns (filterM (λ p, differing md5 p sc)
    (common_with_roots_of root1 root2
       (common_of
          (added_of
             (stripped_listing root1
                (full_listing ((root1, dirs1, files1) :: t1')))
             (stripped_listing root2
                (full_listing ((root2, dirs2, files2) :: t2'))))
          (stripped_listing root2
             (full_listing ((root2, dirs2, files2) :: t2'))))) fs))
    as [r Hr].
  { apply filterM_returns. eapply Forall_impl; [exact Hall|].
    intros [f1 f2] [Hf1 Hf2]. by apply differing_present. }
  destruct (filterM _ _ fs) as [tr' [differ|e]]; [|done].
  by eexists.
Qed.


(** *** The groups [comparison] returns *)

Lemma group_for_elem g f groups :
  g ∈ group_for f groups →
  ∃ label data, (f, label, data) ∈ groups ∧ g = (label, Str.sorted data).
Proof.
  induction groups as [|[[char label] data] groups IH]; cbn [group_for].
  - by intros ?%elem_of_nil.
  - destruct (Ascii.eqb_spec char f) as [->|_].
    + intros ->%list_elem_of_singleton. exists label, data. split; [by left|done].
    + intros (l & d & Hin & ->)%IH. exists l, d. split; [by right|done].
Qed.

Lemma results_of_elem g flags groups :
  g ∈ results_of flags groups →
  ∃ f label data, (f, label, data) ∈ groups ∧ g = (label, Str.sorted data).
Proof.
  unfold results_of. intros (f & _ & Hg)%elem_of_flat_map.
  apply group_for_elem in Hg as (l & d & ? & ?). by exists f, l, d.
Qed.

Lemma group_paths_nil label (res : list group) :
  Forall (λ g, fst g = label → snd g = []) res → group_paths label res = [].
Proof.
  induction 1 as [|[l seq] res Hg _ IH]; [done|].
  cbn [group_paths]. destruct (String.eqb_spec l label) as [->|_]; [|done].
  by apply Hg.
Qed.

Lemma group_paths_elem label (res : list group) p :
  p ∈ group_paths label res → ∃ seq, (label, seq) ∈ res ∧ p ∈ seq.
Proof.
  induction res as [|[l seq] res IH]; cbn [group_paths].
  - by intros ?%elem_of_nil.
  - destruct (String.eqb_spec l label) as [->|_].
    + intros Hp. exists seq. split; [by left|done].
    + intros (seq' & Hin & Hp)%IH. exists seq'. split; [by right|done].
Qed.

Lemma group_paths_app_ne label gs rest :
  Forall (λ g : group, fst g ≠ label) gs →
  group_paths label (gs ++ rest) = group_paths label rest.
Proof.
  induction 1 as [|[l seq] gs Hg _ IH]; [done|].
  cbn [app group_paths]. cbn [fst] in Hg.
  by destruct (String.eqb_spec l label).
Qed.

Lemma group_paths_selected label data
    (table : list (ascii * string * list string)) c chars :
  group_for c table = [(label, Str.sorted data)] →
  (∀ f, f ≠ c → Forall (λ g : group, fst g ≠ label) (group_for f table)) →
  c ∈ chars →
  group_paths label (flat_map (λ f, group_for f table) chars)
  = Str.sorted data.
Proof.
  intros Hc Hother. induction chars as [|f chars IH]; intros Hin.
  - by apply elem_of_nil in Hin.
  - cbn [flat_map]. destruct (decide (f = c)) as [->|Hne].
    + rewrite Hc. cbn [app group_paths]. by rewrite String.eqb_refl.
    + rewrite group_paths_app_ne by by apply Hother.
      apply IH. by apply elem_of_cons in Hin as [?|?].
Qed.

Lemma group_for_other_label f c label
    added changed removed common unchanged :
  flag_label c = Some label → f ≠ c →
  Forall (λ g : group, fst g ≠ label)
    (group_for f [("a"%char, "Added",     added);
                  ("c"%char, "Changed",   changed);
                  ("r"%char, "Removed",   removed);
                  ("s"%char, "Shared",    common);
                  ("u"%char, "Unchanged", unchanged)]).
Proof.
  intros Hc Hne. apply Forall_forall. intros g Hg Hl.
  assert (fst g ∈ option_list (flag_label f)) as Hf.
  { rewrite <-(group_for_label f added changed removed common unchanged).
    apply elem_of_map. by exists g. }
  destruct (flag_label f) as [l|] eqn:Hfl; [|by apply elem_of_nil in Hf].
  apply list_elem_of_singleton in Hf. subst l. rewrite Hl in Hfl.
  apply Hne. clear -Hc Hfl. unfold flag_label in *.
  repeat match goal with
  | H : context [Ascii.eqb ?x ?y] |- _ =>
      destruct (Ascii.eqb_spec x y); simplify_eq
  end; congruence.
Qed.

Lemma comparison_Ok_labels flags t1 t2 sc fs tr res :
  comparison md5 flags t1 t2 sc fs = (tr, Ok res) →
  map fst res = flag_labels flags.
Proof.
  intros H.
  destruct (comparison_Ok_inv md5 _ _ _ _ _ _ _ H)
    as [(e1 & t1' & e2 & t2' & -> & ->) Hcu].
  destruct e1 as [[root1 dirs1] files1], e2 as [[root2 dirs2] files2].
  rewrite comparison_eq in H by done.
  destruct (filterM _ _ fs) as [tr' [differ|e]]; [|done].
  injection H as _ <-. apply results_of_labels.
Qed.

(** X6: every group [comparison] returns lists its paths in ascending
    byte-wise order. *)
Theorem comparison_groups_sorted flags t1 t2 sc fs tr res :
  comparison md5 flags t1 t2 sc fs = (tr, Ok res) →
  Forall (λ g, Sorted String.le (snd g)) res.
Proof.
  intros H.
  destruct (comparison_Ok_inv md5 _ _ _ _ _ _ _ H)
    as [(e1 & t1' & e2 & t2' & -> & ->) Hcu].
  destruct e1 as [[root1 dirs1] files1], e2 as [[root2 dirs2] files2].
  rewrite comparison_eq in H by done.
  destruct (filterM _ _ fs) as [tr' [differ|e]]; [|done].
  injection H as _ <-. apply Forall_forall. intros g Hg.
  apply results_of_elem in Hg as (f & l & d & _ & ->). apply sorted_Sorted.
Qed.

(** X8: when both snapshots start at the same root, as in watch mode,
    every file is tested against itself, and whenever [comparison] returns
    its Changed group is empty, in both the checksum and the
    modification-time mode. *)
Theorem comparison_same_root_changed flags root dirs1 files1 t1'
    dirs2 files2 t2' sc fs tr res :
  comparison md5 flags ((root, dirs1, files1) :: t1')
             ((root, dirs2, files2) :: t2') sc fs = (tr, Ok res) →
  group_paths "Changed" res = [].
Proof.
  intros H.
  destruct (comparison_Ok_inv md5 _ _ _ _ _ _ _ H) as [_ Hcu].
  rewrite comparison_eq in H by done.
  destruct (filterM _ _ fs) as [tr' [differ|e]] eqn:Hf; [|done].
  apply filterM_Ok in Hf as [_ ->]. injection H as _ <-.
  rewrite filter_none.
  2:{ unfold common_with_roots_of. apply Forall_map, Forall_forall.
      intros p _ Ht. unfold says_true in Ht. cbn [fst snd] in Ht.
      destruct (differing md5 _ sc fs) as [tr1 [[]|]] eqn:Hd; try done.
      by pose proof (differing_self fs _ sc true (f_equal snd Hd)). }
  apply group_paths_nil, Forall_forall. intros g Hg Hl.
  apply results_of_elem in Hg as (f & l & d & Hin & ->). cbn [fst snd] in *.
  subst l.
  repeat (apply elem_of_cons in Hin as [Heq|Hin]; [by simplify_eq|]).
  by apply elem_of_nil in Hin.
Qed.

(** X9: the classification loses no path: every after-path is added or
    common, and every before-path is removed or common. *)
Theorem classification_cover (before_str after_str : list string) :
  let added := added_of before_str after_str in
  let removed := removed_of before_str after_str in
  let common := common_of added after_str in
  (∀ p, p ∈ after_str ↔ p ∈ added ∨ p ∈ common) ∧
  (∀ p, p ∈ before_str ↔ p ∈ removed ∨ p ∈ common).
Proof.
  intros added removed common.
  unfold common, added, removed, common_of, added_of, removed_of.
  split; intros p; rewrite !list_elem_of_filter;
    destruct (decide (p ∈ before_str)), (decide (p ∈ after_str)); tauto.
Qed.

(** *** Walks *)

(** X10: on the walk of a tree with valid names, joining the root back
    onto the stripped paths gives the listing again, path by path: the
    pairs the change test is run on are the files as listed. *)
Theorem join_stripped_walk root children :
  forallb valid_node children = true →
  map (Path.join root)
      (stripped_listing root (full_listing (os_walk root children)))
  = full_listing (os_walk root children).
Proof.
  intros Hv. rewrite stripped_listing_walk by done.
  rewrite (full_listing_relocated root children root "")
    by (done || apply relocated_root).
  apply map_ext_in. intros p Hp%list_elem_of_In.
  apply join_rel. by apply (listing_rel_start children "").
Qed.

Lemma endswith_sep_contains s :
  Str.endswith s "/" = true → Str.contains "/" s = true.
Proof.
  induction s as [|c s IH]; [done|].
  cbn [Str.endswith Str.contains].
  intros [H%String.eqb_eq|H]%orb_true_iff.
  - injection H as -> _. done.
  - rewrite IH by done. apply orb_true_r.
Qed.

Lemma valid_name_end name :
  valid_name name = true → Str.endswith name "/" = false.
Proof.
  unfold valid_name. intros [_ Hc%negb_true_iff]%andb_true_iff.
  destruct (Str.endswith name "/") eqn:He; [|done].
  apply endswith_sep_contains in He. congruence.
Qed.

Lemma file_path_not_dir b name :
  valid_name name = true → is_dir_path (Path.join b name) = false.
Proof.
  intros Hv. unfold is_dir_path, Path.sep.
  rewrite join_rel by by apply valid_name_start.
  rewrite endswith_sep_app by by apply valid_name_nonempty.
  by apply valid_name_end.
Qed.

Lemma tree_file_listed children :
  ∀ b pd, forallb valid_node children = true →
  pd ∈ tree_files b children →
  fst pd ∈ full_listing (os_walk b children) ∧ is_dir_path (fst pd) = false.
Proof.
  assert (Hnode : ∀ n b pd, valid_node n = true →
    pd ∈ node_files b n →
    match n with
    | NFile name _ => fst pd = Path.join b name ∧ valid_name name = true
    | NDir _ _ => fst pd ∈ full_listing (walk_node b n) ∧
                  is_dir_path (fst pd) = false
    end).
  { induction n as [name data|name ch IH] using node_ind'.
    - intros b pd Hv ->%list_elem_of_singleton. by split.
    - intros b pd [Hname Hch]%andb_true_iff Hpd.
      cbn [node_files] in Hpd.
      apply elem_of_flat_map in Hpd as (n & Hn & Hpd).
      rewrite Forall_forall in IH.
      pose proof (forallb_valid_elem n ch Hch Hn) as Hvn.
      pose proof (IH n Hn (Path.join b name) pd Hvn Hpd) as Hres.
      rewrite walk_node_dir. unfold os_walk. rewrite full_listing_cons.
      destruct n as [fname fdata|dname dch].
      + destruct Hres as [-> Hvf]. split; [|by apply file_path_not_dir].
        apply elem_of_app. left. apply elem_of_map. exists fname.
        split; [done|]. apply elem_of_app. left.
        apply file_names_elem. by exists fdata.
      + destruct Hres as [Hin Hnd]. split; [|done].
        apply elem_of_app. right. rewrite full_listing_flat_map.
        apply elem_of_flat_map. by exists (NDir dname dch). }
  intros b pd Hv Hpd. unfold tree_files in Hpd.
  apply elem_of_flat_map in Hpd as (n & Hn & Hpd).
  pose proof (forallb_valid_elem n children Hv Hn) as Hvn.
  pose proof (Hnode n b pd Hvn Hpd) as Hres.
  unfold os_walk. rewrite full_listing_cons.
  destruct n as [fname fdata|dname dch].
  - destruct Hres as [-> Hvf]. split; [|by apply file_path_not_dir].
    apply elem_of_app. left. apply elem_of_map. exists fname.
    split; [done|]. apply elem_of_app. left.
    apply file_names_elem. by exists fdata.
  - destruct Hres as [Hin Hnd]. split; [|done].
    apply elem_of_app. right. rewrite full_listing_flat_map.
    apply elem_of_flat_map. by exists (NDir dname dch).
Qed.

(** X11: in the listing of a walk of a tree with valid names, the paths
    that do not end with the separator are exactly the paths of the files
    of the tree: the trailing separator marks the directories and nothing
    else. *)
Theorem listing_files_iff top children p :
  forallb valid_node children = true →
  (p ∈ full_listing (os_walk top children) ∧ is_dir_path p = false)
  ↔ p ∈ map fst (tree_files top children).
Proof.
  intros Hv. split.
  - intros [Hp Hnd]. destruct (listing_file_path children top p Hv Hp Hnd)
      as [d Hd]. apply elem_of_map. by exists (p, d).
  - intros (pd & -> & Hpd)%elem_of_map. by apply tree_file_listed.
Qed.

Lemma snapshot_files_cons root dirs files t :
  snapshot_files ((root, dirs, files) :: t)
  = map (Path.join root) files ++ snapshot_files t.
Proof. done. Qed.

Lemma snapshot_files_app t t' :
  snapshot_files (t ++ t') = snapshot_files t ++ snapshot_files t'.
Proof. unfold snapshot_files. apply flat_map_app. Qed.

Lemma snapshot_files_flat_map {A} (f : A → snapshot) (l : list A) :
  snapshot_files (flat_map f l) = flat_map (λ x, snapshot_files (f x)) l.
Proof.
  induction l as [|x l IH]; [done|].
  cbn [flat_map]. by rewrite snapshot_files_app, IH.
Qed.

Lemma snapshot_files_walk children :
  ∀ b p, p ∈ snapshot_files (os_walk b children)
         ↔ p ∈ map fst (tree_files b children).
Proof.
  assert (Hentry : ∀ b ch p,
    p ∈ map (Path.join b) (file_names ch)
    ↔ ∃ n d, NFile n d ∈ ch ∧ p = Path.join b n).
  { intros b ch p. rewrite elem_of_map. split.
    - intros (n & -> & [d Hd]%file_names_elem). by exists n, d.
    - intros (n & d & Hd & ->). exists n. split; [done|].
      apply file_names_elem. by exists d. }
  assert (Hnode : ∀ n b p,
    p ∈ snapshot_files (walk_node b n) ↔
    match n with
    | NFile _ _ => False
    | NDir _ _ => p ∈ map fst (node_files b n)
    end).
  { induction n as [name data|name ch IH] using node_ind'.
    - intros b p. cbn. split; [by intros ?%elem_of_nil|done].
    - intros b p. rewrite walk_node_dir. unfold os_walk.
      rewrite snapshot_files_cons, elem_of_app, Hentry.
      rewrite snapshot_files_flat_map, elem_of_flat_map.
      cbn [node_files]. rewrite elem_of_map.
      rewrite Forall_forall in IH. split.
      + intros [(n & d & Hd & ->)|(n & Hn & Hp)].
        * exists (Path.join (Path.join b name) n, d). split; [done|].
          apply elem_of_flat_map. exists (NFile n d). split; [done|].
          cbn [node_files]. by apply list_elem_of_singleton.
        * apply (IH n Hn) in Hp. destruct n as [|dn dch]; [done|].
          apply elem_of_map in Hp as (pd & -> & Hpd). exists pd.
          split; [done|]. apply elem_of_flat_map. by exists (NDir dn dch).
      + intros (pd & -> & (n & Hn & Hpd)%elem_of_flat_map).
        destruct n as [fn fd|dn dch].
        * left. apply list_elem_of_singleton in Hpd as ->. by exists fn, fd.
        * right. exists (NDir dn dch). split; [done|]. apply (IH _ Hn).
          apply elem_of_map. by exists pd. }
  intros b p. unfold os_walk, tree_files.
  rewrite snapshot_files_cons, elem_of_app, Hentry.
  rewrite snapshot_files_flat_map, elem_of_flat_map, elem_of_map. split.
  - intros [(n & d & Hd & ->)|(n & Hn & Hp)].
    + exists (Path.join b n, d). split; [done|].
      apply elem_of_flat_map. exists (NFile n d). split; [done|].
      cbn [node_files]. by apply list_elem_of_singleton.
    + apply Hnode in Hp. destruct n as [|dn dch]; [done|].
      apply elem_of_map in Hp as (pd & -> & Hpd). exists pd.
      split; [done|]. apply elem_of_flat_map. by exists (NDir dn dch).
  - intros (pd & -> & (n & Hn & Hpd)%elem_of_flat_map).
    destruct n as [fn fd|dn dch].
    + left. apply list_elem_of_singleton in Hpd as ->. by exists fn, fd.
    + right. exists (NDir dn dch). split; [done|]. apply Hnode.
      apply elem_of_map. by exists pd.
Qed.

Lemma holds_is_Some fs root children p :
  holds fs root children → p ∈ map fst (tree_files root children) →
  is_Some (fs p).
Proof.
  unfold holds. rewrite Forall_forall.
  intros H (pd & -> & Hpd)%elem_of_map. specialize (H pd Hpd).
  destruct (fs (fst pd)); [by eexists|done].
Qed.

Lemma rel_file_joined root children p :
  forallb valid_node children = true →
  p ∈ rel_paths children → is_dir_path p = false →
  Path.join root p ∈ map fst (tree_files root children).
Proof.
  intros Hv Hp Hnd.
  destruct (listing_file_path children "" p Hv Hp Hnd) as [d Hd].
  rewrite join_rel by by apply (listing_rel_start children "").
  rewrite (tree_files_relocated root children root "")
    by (done || apply relocated_root).
  apply elem_of_map. exists (with_sep root +:+ p, d). split; [done|].
  apply elem_of_map. by exists (p, d).
Qed.

Lemma common_of_elem added after_str p :
  p ∈ common_of added after_str → p ∈ after_str.
Proof. by intros [_ ?]%list_elem_of_filter. Qed.

Lemma common_in_before before_str after_str p :
  p ∈ common_of (added_of before_str after_str) after_str → p ∈ before_str.
Proof.
  unfold common_of, added_of. rewrite !list_elem_of_filter.
  intros [Hn Hp]. destruct (decide (p ∈ before_str)); [done|].
  by destruct Hn.
Qed.

(** X19: on the walk of a tree the file system holds, [get_checksums]
    returns a map that has, for every file of the tree, the digest of its
    bytes under its absolute path, and has no key that is not a file of the
    tree. *)
Theorem get_checksums_walk fs root children :
  holds fs root children →
  ∃ m, snd (get_checksums md5 (os_walk root children) fs) = Ok m ∧
       (∀ p d, (p, d) ∈ tree_files root children →
               m !! p = Some (md5 d)) ∧
       (∀ k, is_Some (m !! k) → k ∈ map fst (tree_files root children)).
Proof.
  intros Hh.
  destruct (foldl_add_checksum_Ok (snapshot_files (os_walk root children)) fs)
    as (m & Hm & Hlook).
  { apply Forall_forall. intros p Hp%snapshot_files_walk.
    by apply (holds_is_Some fs root children). }
  exists m. rewrite get_checksums_foldl, Hm. split_and!; [done| |].
  - intros p d Hpd. rewrite Hlook. rewrite decide_True.
    + unfold holds in Hh. rewrite Forall_forall in Hh.
      specialize (Hh (p, d) Hpd). cbn [fst snd] in Hh.
      destruct (fs p) as [x|]; [|done]. cbn in *. by injection Hh as ->.
    + apply snapshot_files_walk, elem_of_map. by exists (p, d).
  - intros k. rewrite Hlook.
    destruct (decide (k ∈ snapshot_files (os_walk root children)))
      as [Hin|_]; [|by intros [? ?]].
    intros _. by apply snapshot_files_walk.
Qed.

Lemma get_checksums_walk_keys fs root children :
  holds fs root children →
  ∃ tr m, get_checksums md5 (os_walk root children) fs = (tr, Ok m) ∧
          ∀ k, is_Some (m !! k) ↔ k ∈ map fst (tree_files root children).
Proof.
  intros Hh.
  destruct (foldl_add_checksum_Ok (snapshot_files (os_walk root children)) fs)
    as (m & Hm & Hlook).
  { apply Forall_forall. intros p Hp%snapshot_files_walk.
    by apply (holds_is_Some fs root children). }
  eexists _, m. split; [by rewrite get_checksums_foldl|].
  intros k. rewrite Hlook.
  destruct (decide (k ∈ snapshot_files (os_walk root children)))
    as [Hin|Hnin].
  - apply snapshot_files_walk in Hin. split; [done|intros _].
    destruct (holds_is_Some fs root children k Hh Hin) as [x ->]. by eexists.
  - split; [by intros [? ?]|]. by intros ?%snapshot_files_walk.
Qed.

(** X5: the comparison of the walks of two trees with valid names returns
    a result, in either mode, whenever the file system holds both trees
    and the flags contain [c] or [u]. *)
Theorem comparison_walks_returns flags
    (children1 children2 : list node) (root1 root2 : string) sc fs :
  forallb valid_node children1 = true →
  forallb valid_node children2 = true →
  holds fs root1 children1 →
  holds fs root2 children2 →
  Str.contains "c" flags = true ∨ Str.contains "u" flags = true →
  returns (comparison md5 flags (os_walk root1 children1)
                      (os_walk root2 children2) sc fs).
Proof.
  intros Hv1 Hv2 H1 H2 Hcu. apply comparison_returns_if; [done|done|done|].
  unfold os_walk at 1 2. cbn [compared_pairs].
  fold (os_walk root1 children1). fold (os_walk root2 children2).
  rewrite !stripped_listing_walk by done.
  unfold common_with_roots_of. apply Forall_map, Forall_forall.
  intros p [Hnd Hp]%list_elem_of_filter.
  apply negb_prop_elim, Is_true_false in Hnd. cbn [fst snd]. split.
  - apply (holds_is_Some fs root1 children1); [done|].
    apply rel_file_joined; [done| |done]. by apply common_in_before in Hp.
  - apply (holds_is_Some fs root2 children2); [done|].
    apply rel_file_joined; [done| |done]. by apply common_of_elem in Hp.
Qed.

Lemma changed_elem root1 root2 (common : list string)
    (f : string * string → bool) p :
  (∀ q, q ∈ common → Str.startswith q "/" = false) →
  p ∈ map (λ pr, erase_from (fst pr) (with_sep root1))
          (filter (λ pr, f pr) (common_with_roots_of root1 root2 common))
  ↔ p ∈ common ∧ is_dir_path p = false ∧
    f (Path.join root1 p, Path.join root2 p) = true.
Proof.
  intros Hstart. unfold common_with_roots_of. split.
  - intros (pr & -> & [Hf Hpr]%list_elem_of_filter)%elem_of_map.
    apply elem_of_map in Hpr as (q & -> & [Hnd Hq]%list_elem_of_filter).
    cbn [fst]. rewrite join_rel by by apply Hstart.
    unfold erase_from. rewrite erase_first_prefix.
    split_and!; [done| |].
    + by apply negb_prop_elim, Is_true_false in Hnd.
    + by apply Is_true_true.
  - intros (Hp & Hnd & Hf). apply elem_of_map.
    exists (Path.join root1 p, Path.join root2 p). cbn [fst]. split.
    + rewrite join_rel by by apply Hstart.
      unfold erase_from. by rewrite erase_first_prefix.
    + apply list_elem_of_filter. split; [by apply Is_true_true|].
      apply elem_of_map. exists p. split; [done|].
      apply list_elem_of_filter. split; [|done].
      by rewrite Hnd.
Qed.

(** X7: on the walks of two trees with valid names, with [c], [s] and [u]
    among the flags, the Changed group is exactly the non-directory Shared
    paths on which the change test says the two files differ, and the
    Unchanged group is exactly the other non-directory Shared paths:
    directories are in neither, and no path is in both. *)
Theorem changed_unchanged_partition flags
    (children1 children2 : list node) (root1 root2 : string)
    sc fs tr res :
  forallb valid_node children1 = true →
  forallb valid_node children2 = true →
  "c"%char ∈ list_ascii_of_string (Str.lower flags) →
  "s"%char ∈ list_ascii_of_string (Str.lower flags) →
  "u"%char ∈ list_ascii_of_string (Str.lower flags) →
  comparison md5 flags (os_walk root1 children1) (os_walk root2 children2)
             sc fs = (tr, Ok res) →
  ∀ p,
    (p ∈ group_paths "Changed" res ↔
       p ∈ group_paths "Shared" res ∧ is_dir_path p = false ∧
       says_true (differing md5 (Path.join root1 p, Path.join root2 p)
                            sc fs) = true) ∧
    (p ∈ group_paths "Unchanged" res ↔
       p ∈ group_paths "Shared" res ∧ is_dir_path p = false ∧
       p ∉ group_paths "Changed" res).
Proof.
  intros Hv1 Hv2 Hc Hs Hu H p.
  destruct (comparison_Ok_inv md5 _ _ _ _ _ _ _ H) as [_ Hcu].
  rewrite (comparison_eq md5 flags root1 (dir_names children1)
             (file_names children1) (flat_map (walk_node root1) children1)
             root2 (dir_names children2) (file_names children2)
             (flat_map (walk_node root2) children2)) in H by done.
  fold (os_walk root1 children1) in H. fold (os_walk root2 children2) in H.
  rewrite !stripped_listing_walk in H by done.
  fold (rel_paths children1) in H. fold (rel_paths children2) in H.
  set (common := common_of (added_of (rel_paths children1)
                                     (rel_paths children2))
                           (rel_paths children2)) in *.
  assert (Hstart : ∀ q, q ∈ common → Str.startswith q "/" = false).
  { intros q [_ Hq]%list_elem_of_filter.
    by apply (listing_rel_start children2 ""). }
  clearbody common.
  destruct (filterM _ _ fs) as [tr' [differ|e]] eqn:Hf; [|done].
  apply filterM_Ok in Hf as [_ ->]. injection H as _ <-.
  unfold results_of.
  erewrite (group_paths_selected "Changed" _ _ "c"%char);
    [|reflexivity
     |intros f Hne; by apply (group_for_other_label f "c"%char)|done].
  erewrite (group_paths_selected "Shared" _ _ "s"%char);
    [|reflexivity
     |intros f Hne; by apply (group_for_other_label f "s"%char)|done].
  erewrite (group_paths_selected "Unchanged" _ _ "u"%char);
    [|reflexivity
     |intros f Hne; by apply (group_for_other_label f "u"%char)|done].
  rewrite !elem_of_sorted.
  pose proof (changed_elem root1 root2 common
                (λ pr, says_true (differing md5 pr sc fs)) p Hstart) as Hch.
  split; [exact Hch|].
  rewrite list_elem_of_filter. rewrite Hch.
  destruct (is_dir_path p).
  - split; [intros [[_ Hn] _]; by destruct Hn|intros (_ & ? & _); done].
  - split.
    + intros [[Hn _] Hp]. split_and!; [done|done|tauto].
    + intros (Hp & _ & Hn). split_and!; [tauto|by intros ?|done].
Qed.

Lemma comparison_walks_shared flags
    (children1 children2 : list node) (root1 root2 : string)
    sc fs tr res p :
  forallb valid_node children1 = true →
  forallb valid_node children2 = true →
  comparison md5 flags (os_walk root1 children1) (os_walk root2 children2)
             sc fs = (tr, Ok res) →
  p ∈ group_paths "Shared" res →
  p ∈ rel_paths children1 ∧ p ∈ rel_paths children2.
Proof.
  intros Hv1 Hv2 H (seq & Hin & Hp)%group_paths_elem.
  destruct (comparison_Ok_inv md5 _ _ _ _ _ _ _ H) as [_ Hcu].
  rewrite (comparison_eq md5 flags root1 (dir_names children1)
             (file_names children1) (flat_map (walk_node root1) children1)
             root2 (dir_names children2) (file_names children2)
             (flat_map (walk_node root2) children2)) in H by done.
  fold (os_walk root1 children1) in H. fold (os_walk root2 children2) in H.
  rewrite !stripped_listing_walk in H by done.
  fold (rel_paths children1) in H. fold (rel_paths children2) in H.
  set (common := common_of (added_of (rel_paths children1)
                                     (rel_paths children2))
                           (rel_paths children2)) in *.
  assert (Hcommon : ∀ q, q ∈ common →
            q ∈ rel_paths children1 ∧ q ∈ rel_paths children2).
  { intros q Hq. split;
      [by apply common_in_before in Hq|by apply common_of_elem in Hq]. }
  clearbody common.
  destruct (filterM _ _ fs) as [tr' [differ|err]]; [|done].
  injection H as _ <-.
  apply results_of_elem in Hin as (f & l & d & Htab & [= <- ->]).
  apply elem_of_sorted in Hp.
  repeat (apply elem_of_cons in Htab as [Heq|Htab];
          [simplify_eq; rewrite ?elem_of_sorted in Hp; by apply Hcommon|]).
  by apply elem_of_nil in Htab.
Qed.

(** *** The comparison inside a monitor cycle *)






(** *** The monitor *)

Lemma shared_changed_Ok e pre_state' pre cur seq fs tr changed :
  shared_changed (e :: pre_state') (Some pre) (Some cur) seq fs
  = (tr, Ok changed) →
  changed = filter (λ fname, digest_differs pre cur
                               (Path.join (fst (fst e)) fname)) seq.
Proof.
  destruct e as [[root dirs] files]. cbn [fst].
  revert tr changed. induction seq as [|fname seq IH]; intros tr changed H.
  - by injection H as _ <-.
  - cbn [shared_changed first_root read_local] in H.
    rewrite !bind_ret in H. unfold bind at 1 in H.
    unfold digest_differs at 1.
    destruct (pre !! Path.join root fname) as [d1|] eqn:H1.
    + rewrite bind_ret in H.
      destruct (cur !! Path.join root fname) as [d2|] eqn:H2; [|done].
      cbn [ret] in H. unfold bind in H.
      destruct (shared_changed _ _ _ seq fs) as [tr' [ch|e]]; [|done].
      rewrite (IH _ _ eq_refl) in H. injection H as _ <-.
      destruct (negb (String.eqb d1 d2)) eqn:Hd.
      * rewrite filter_cons_True; [done|].
        unfold digest_differs. by rewrite H1, H2, Hd.
      * rewrite filter_cons_False; [done|].
        unfold digest_differs. rewrite H1, H2, Hd. by intros ?.
    + cbn [ret] in H. unfold bind in H.
      destruct (shared_changed _ _ _ seq fs) as [tr' [ch|e]]; [|done].
      rewrite (IH _ _ eq_refl) in H. injection H as _ <-.
      rewrite filter_cons_False; [done|].
      unfold digest_differs. rewrite H1. by intros ?.
Qed.

Lemma take_shared_Ok e pre_state' pre cur compared fs tr r :
  take_shared (e :: pre_state') (Some pre) (Some cur) compared fs
  = (tr, Ok r) →
  fst r = filter (λ fname, digest_differs pre cur
                             (Path.join (fst (fst e)) fname))
                 (group_paths "Shared" compared) ∧
  map fst (snd r) = remove_first "Shared" (map fst compared).
Proof.
  revert tr r. induction compared as [|[label seq] rest IH]; intros tr r H.
  - by injection H as _ <-.
  - cbn [take_shared group_paths map remove_first fst] in *.
    destruct (String.eqb label "Shared").
    + unfold bind in H.
      destruct (shared_changed _ _ _ seq fs) as [tr' [ch|err]] eqn:Hs;
        [|done].
      injection H as _ <-. cbn [fst snd]. split; [|done].
      by apply shared_changed_Ok in Hs.
    + unfold bind in H.
      destruct (take_shared _ _ _ rest fs) as [tr' [r'|err]]; [|done].
      destruct (IH _ _ eq_refl) as [H1 H2]. injection H as _ <-.
      cbn [fst snd map]. by rewrite H2.
Qed.

Lemma take_shared_labels pre_state pre cur compared fs tr r :
  take_shared pre_state pre cur compared fs = (tr, Ok r) →
  map fst (snd r) = remove_first "Shared" (map fst compared).
Proof.
  revert tr r. induction compared as [|[label seq] rest IH]; intros tr r H.
  - by injection H as _ <-.
  - cbn [take_shared map remove_first fst] in *.
    destruct (String.eqb label "Shared").
    + unfold bind in H.
      destruct (shared_changed _ _ _ seq fs) as [tr' [ch|err]]; [|done].
      by injection H as _ <-.
    + unfold bind in H.
      destruct (take_shared _ _ _ rest fs) as [tr' [r'|err]]; [|done].
      pose proof (IH _ _ eq_refl) as H2. injection H as _ <-.
      cbn [fst snd map]. by rewrite H2.
Qed.

Lemma put_changed_labels changed compared :
  map fst (put_changed changed compared) = map fst compared.
Proof.
  destruct compared as [|[label seq] rest]; [done|].
  cbn [put_changed]. destruct (String.eqb_spec label "Changed") as [->|]; done.
Qed.

Lemma monitor_cycle_Ok_inv a pre_state fs_pre cur_state fs_cur tr out :
  monitor_cycle md5 a pre_state fs_pre cur_state fs_cur = (tr, Ok out) →
  ∃ tr1 pre tr2 cur tr3 compared tr4 r,
    bind_checksums md5 (a_skip_checksum a) pre_state fs_pre = (tr1, Ok pre) ∧
    bind_checksums md5 (a_skip_checksum a) cur_state fs_cur = (tr2, Ok cur) ∧
    comparison md5 (flags_with_shared (a_flags a)) pre_state cur_state true
               fs_cur = (tr3, Ok compared) ∧
    take_shared pre_state pre cur compared fs_cur = (tr4, Ok r) ∧
    out = put_changed (fst r) (snd r).
Proof.
  unfold monitor_cycle, monitor_compare. intros H.
  destruct (bind_checksums md5 _ pre_state fs_pre) as [tr1 [pre|e]]; [|done].
  unfold bind at 1 in H.
  destruct (bind_checksums md5 _ cur_state fs_cur) as [tr2 [cur|e]]; [|done].
  unfold bind at 1 in H.
  destruct (comparison md5 _ _ _ _ fs_cur) as [tr3 [compared|e]]; [|done].
  unfold bind in H.
  destruct (take_shared _ _ _ compared fs_cur) as [tr4 [r|e]] eqn:Ht; [|done].
  cbn in H. injection H as _ <-. by exists tr1, pre, tr2, cur, tr3, compared, tr4, r.
Qed.

Lemma bind_checksums_false_Ok state fs tr pc :
  bind_checksums md5 false state fs = (tr, Ok pc) →
  ∃ m, pc = Some m ∧ get_checksums md5 state fs = (tr, Ok m).
Proof.
  cbn [bind_checksums negb]. unfold bind. intros H.
  destruct (get_checksums md5 state fs) as [tr' [m|e]]; [|done].
  cbn in H. injection H as <- <-. rewrite app_nil_r. by exists m.
Qed.

(** X12: the labels of the groups a monitor cycle hands to the printer are
    the labels selected by the flags with [s] added, in flag order, with
    the first Shared removed; the two loops after the comparison change no
    other label and no position. *)
Theorem monitor_cycle_labels a pre_state fs_pre cur_state fs_cur tr out :
  monitor_cycle md5 a pre_state fs_pre cur_state fs_cur = (tr, Ok out) →
  map fst out
  = remove_first "Shared" (flag_labels (flags_with_shared (a_flags a))).
Proof.
  intros (tr1 & pre & tr2 & cur & tr3 & compared & tr4 & r
          & _ & _ & Hc & Ht & ->)%monitor_cycle_Ok_inv.
  rewrite put_changed_labels. apply take_shared_labels in Ht. rewrite Ht.
  by rewrite (comparison_Ok_labels _ _ _ _ _ _ _ Hc).
Qed.

(** X13: in a monitor cycle with checksums, when Changed is the first
    group left after the Shared group is removed (as with the default
    flags), the Changed group handed to the printer holds exactly the
    Shared paths whose digests differ between the map built before the
    sleep and the map built after it, in the order of the Shared group. *)
Theorem monitor_cycle_changed a pre_state fs_pre cur_state fs_cur tr out :
  a_skip_checksum a = false →
  head (remove_first "Shared"
          (flag_labels (flags_with_shared (a_flags a)))) = Some "Changed" →
  monitor_cycle md5 a pre_state fs_pre cur_state fs_cur = (tr, Ok out) →
  ∃ root dirs files rest pre cur compared,
    pre_state = (root, dirs, files) :: rest ∧
    snd (get_checksums md5 pre_state fs_pre) = Ok pre ∧
    snd (get_checksums md5 cur_state fs_cur) = Ok cur ∧
    snd (comparison md5 (flags_with_shared (a_flags a))
                    pre_state cur_state true fs_cur) = Ok compared ∧
    group_paths "Changed" out
    = filter (λ p, digest_differs pre cur (Path.join root p))
             (group_paths "Shared" compared).
Proof.
  intros Hskip Hhead (tr1 & pc & tr2 & cc & tr3 & compared & tr4 & r
          & Hpre & Hcur & Hc & Ht & ->)%monitor_cycle_Ok_inv.
  rewrite Hskip in Hpre, Hcur.
  apply bind_checksums_false_Ok in Hpre as (pre & -> & Hpre).
  apply bind_checksums_false_Ok in Hcur as (cur & -> & Hcur).
  destruct (comparison_Ok_inv md5 _ _ _ _ _ _ _ Hc)
    as [(e1 & t1' & e2 & t2' & -> & ->) _].
  destruct e1 as [[root dirs] files].
  exists root, dirs, files, t1', pre, cur, compared.
  rewrite Hpre, Hcur, Hc. split_and!; try done.
  apply take_shared_Ok in Ht as [Hch Hlab]. cbn [fst] in Hch.
  rewrite <-(comparison_Ok_labels _ _ _ _ _ _ _ Hc), <-Hlab in Hhead.
  destruct (snd r) as [|[label seq] rest]; [done|].
  cbn in Hhead. injection Hhead as ->.
  cbn [put_changed]. rewrite String.eqb_refl. cbn [group_paths].
  by rewrite String.eqb_refl.
Qed.

Lemma contains_app c a b :
  Str.contains c (a +:+ b) = Str.contains c a || Str.contains c b.
Proof.
  induction a as [|d a IH]; [done|].
  cbn [String.append Str.contains]. rewrite IH. by rewrite orb_assoc.
Qed.

Lemma contains_with_shared c flags :
  Str.contains c flags = true →
  Str.contains c (flags_with_shared flags) = true.
Proof.
  intros H. unfold flags_with_shared. destruct (negb _); [|done].
  rewrite contains_app, H. done.
Qed.

(** X15: after [s] has been added the flags contain [s], adding it again
    changes nothing, and the caller's flags are kept as a prefix: over the
    whole watch the flags grow by at most one character. *)
Theorem flags_with_shared_stable flags :
  Str.contains "s" (flags_with_shared flags) = true ∧
  flags_with_shared (flags_with_shared flags) = flags_with_shared flags ∧
  prefixes flags (flags_with_shared flags).
Proof.
  unfold flags_with_shared.
  destruct (Str.contains "s" flags) eqn:Hs; cbn [negb].
  - rewrite Hs. split_and!; [done|done|apply prefixes_refl].
  - assert (Str.contains "s" (flags +:+ "s") = true) as Hs'
      by (rewrite contains_app; apply orb_true_r).
    rewrite Hs'. split_and!; [done|done|by exists "s"].
Qed.

Lemma shared_changed_returns e pre_state' pre cur seq fs :
  (∀ p, p ∈ seq →
        is_Some (pre !! Path.join (fst (fst e)) p) →
        is_Some (cur !! Path.join (fst (fst e)) p)) →
  returns (shared_changed (e :: pre_state') (Some pre) (Some cur) seq fs).
Proof.
  destruct e as [[root dirs] files]. cbn [fst].
  induction seq as [|fname seq IH]; intros Hkeys; [by exists []|].
  cbn [shared_changed first_root read_local]. rewrite !bind_ret.
  destruct IH as [ch Hch].
  { intros p Hp. apply Hkeys. by right. }
  unfold bind at 1.
  destruct (pre !! Path.join root fname) as [d1|] eqn:H1.
  - rewrite bind_ret.
    destruct (Hkeys fname) as [d2 H2]; [by left|by rewrite H1|].
    rewrite H2. cbn [ret]. unfold bind.
    destruct (shared_changed _ _ _ seq fs) as [tr' [ch'|err]]; [|done].
    by eexists.
  - cbn [ret]. unfold bind.
    destruct (shared_changed _ _ _ seq fs) as [tr' [ch'|err]]; [|done].
    by eexists.
Qed.

Lemma take_shared_returns e pre_state' pre cur compared fs :
  (∀ p, p ∈ group_paths "Shared" compared →
        is_Some (pre !! Path.join (fst (fst e)) p) →
        is_Some (cur !! Path.join (fst (fst e)) p)) →
  returns (take_shared (e :: pre_state') (Some pre) (Some cur) compared fs).
Proof.
  induction compared as [|[label seq] rest IH]; intros Hkeys;
    [by eexists|].
  cbn [take_shared group_paths] in *. destruct (String.eqb label "Shared").
  - destruct (shared_changed_returns e pre_state' pre cur seq fs Hkeys)
      as [ch Hch].
    unfold bind.
    destruct (shared_changed _ _ _ seq fs) as [tr' [ch'|err]]; [|done].
    by eexists.
  - destruct (IH Hkeys) as [r Hr]. unfold bind.
    destruct (take_shared _ _ _ rest fs) as [tr' [r'|err]]; [|done].
    by eexists.
Qed.

(** X14: a monitor cycle with checksums over two walks of the watched
    root returns a report, whatever changed in between, whenever the file
    system held the first tree before the sleep and holds the second after
    it and the flags contain [c] or [u]; in particular the lookup in the
    second checksum map never fails. *)
Theorem monitor_cycle_returns a root
    (children1 children2 : list node) fs_pre fs_cur :
  forallb valid_node children1 = true →
  forallb valid_node children2 = true →
  holds fs_pre root children1 →
  holds fs_cur root children2 →
  a_skip_checksum a = false →
  Str.contains "c" (a_flags a) = true ∨ Str.contains "u" (a_flags a) = true →
  returns (monitor_cycle md5 a (os_walk root children1) fs_pre
                         (os_walk root children2) fs_cur).
Proof.
  intros Hv1 Hv2 H1 H2 Hskip Hcu.
  destruct (get_checksums_walk_keys fs_pre root children1 H1)
    as (tr1 & m1 & Hm1 & Hk1).
  destruct (get_checksums_walk_keys fs_cur root children2 H2)
    as (tr2 & m2 & Hm2 & Hk2).
  assert (Hcu' : Str.contains "c" (flags_with_shared (a_flags a)) = true ∨
                 Str.contains "u" (flags_with_shared (a_flags a)) = true)
    by (destruct Hcu; [left|right]; by apply contains_with_shared).
  assert (Hret : returns (comparison md5 (flags_with_shared (a_flags a))
            (os_walk root children1) (os_walk root children2) true fs_cur)).
  { apply comparison_returns_if; [done|done|done|].
    unfold os_walk at 1 2. cbn [compared_pairs].
    fold (os_walk root children1). fold (os_walk root children2).
    rewrite !stripped_listing_walk by done.
    unfold common_with_roots_of. apply Forall_map, Forall_forall.
    intros p [Hnd Hp]%list_elem_of_filter.
    apply negb_prop_elim, Is_true_false in Hnd. cbn [fst snd].
    assert (is_Some (fs_cur (Path.join root p))); [|done].
    apply (holds_is_Some fs_cur root children2); [done|].
    apply rel_file_joined; [done| |done]. by apply common_of_elem in Hp. }
  destruct Hret as [compared Hc].
  destruct (comparison md5 _ _ _ true fs_cur) as [tr3 r3] eqn:Hcmp.
  cbn [snd] in Hc. subst r3.
  assert (Hshared : ∀ p, p ∈ group_paths "Shared" compared →
            p ∈ rel_paths children2).
  { intros p Hp.
    by destruct (comparison_walks_shared _ _ _ _ _ _ _ _ _ p Hv1 Hv2 Hcmp). }
  unfold monitor_cycle, monitor_compare. rewrite Hskip.
  cbn [bind_checksums negb]. unfold bind at 1. rewrite Hm1. cbn [ret].
  unfold bind at 1. unfold bind at 1. rewrite Hm2. cbn [ret].
  unfold bind at 1. rewrite Hcmp.
  destruct (take_shared_returns
              (root, dir_names children1, file_names children1)
              (flat_map (walk_node root) children1) m1 m2 compared fs_cur)
    as [r Hr].
  { cbn [fst]. intros p Hp Hsome. apply Hshared in Hp.
    apply Hk1 in Hsome. apply Hk2.
    assert (is_dir_path (Path.join root p) = false) as Hnd.
    { apply elem_of_map in Hsome as (pd & Heq & Hpd).
      rewrite Heq. by apply (tree_file_listed children1 root pd). }
    apply rel_file_joined; [done|done|].
    unfold is_dir_path in *.
    rewrite join_rel in Hnd by by apply (listing_rel_start children2 "").
    destruct (Str.endswith p Path.sep) eqn:He; [|done].
    by rewrite (endswith_app _ _ _ He) in Hnd. }
  fold (os_walk root children1) in Hr. unfold bind.
  destruct (take_shared _ _ _ compared fs_cur) as [tr4 [r'|err]]; [|done].
  by eexists.
Qed.

(** X16: once a snapshot is held, the loop never uses a walk taken before
    the sleep again: what it prints and how it ends do not depend on those
    walks. *)
Theorem monitor_reuses_snapshot a s world :
  monitor md5 a (Some s) world
  = monitor md5 a (Some s) (map forget_walk_pre world).
Proof.
  revert a s. induction world as [|o world IH]; intros a s; [done|].
  cbn [map monitor forget_walk_pre o_exists o_fs_pre o_walk_cur o_fs_cur].
  destruct (negb (o_exists o)); [done|].
  destruct (monitor_cycle md5 a s _ _ _) as [tr [compared|e]]; [|done].
  by rewrite IH.
Qed.

(** *** Printing *)

(** X17: [pretty_watch] prints nothing exactly when every group is empty,
    and groups without paths never change what is printed. *)
Theorem pretty_watch_silent results cutoff :
  (pretty_watch results cutoff = None ↔ Forall (λ g, snd g = []) results) ∧
  pretty_watch results cutoff
  = pretty_watch (filter (λ g : group, snd g ≠ []) results) cutoff.
Proof.
  split.
  - unfold pretty_watch.
    destruct (filter (λ tup : group, snd tup ≠ []) results)
      as [|g gs] eqn:Hf; cbn [map].
    + split; [intros _|done]. apply Forall_forall. intros g Hg.
      destruct (decide (snd g = [])) as [|Hne]; [done|].
      assert (g ∈ filter (λ tup : group, snd tup ≠ []) results) as Hin
        by by apply list_elem_of_filter.
      rewrite Hf in Hin. by apply elem_of_nil in Hin.
    + split; [done|]. intros Hall. rewrite Forall_forall in Hall.
      assert (g ∈ filter (λ tup : group, snd tup ≠ []) results) as Hin
        by (rewrite Hf; by left).
      apply list_elem_of_filter in Hin as [Hne Hin]. by destruct (Hne (Hall g Hin)).
  - unfold pretty_watch. by rewrite list_filter_filter_l.
Qed.

Lemma length_times_dash n : String.length (times "-" n) = n.
Proof. induction n as [|n IH]; [done|]. cbn. by rewrite IH. Qed.

Lemma concat_lines seq :
  match seq with
  | [] => ""
  | _ => String.concat newline seq +:+ newline
  end = String.concat "" (map (λ p, p +:+ newline) seq).
Proof.
  induction seq as [|p seq IH]; [done|].
  destruct seq as [|q seq].
  - cbn [map String.concat]. done.
  - cbn [map String.concat] in *. rewrite <-IH.
    by rewrite !app_assoc'.
Qed.

(** X18: [pretty_compare] prints the groups in order, separated by a
    newline, each as its label, an underline of dashes as long as the
    label, and then every path on a line of its own; a group without paths
    is its label and underline only. *)
Theorem pretty_compare_blocks results :
  pretty_compare results = String.concat newline (map group_block results) ∧
  (∀ label, String.length (times "-" (String.length label))
            = String.length label).
Proof.
  split.
  - unfold pretty_compare. f_equal. apply map_ext. intros [label seq].
    unfold group_block. cbn [fst snd]. by rewrite concat_lines.
  - intros label. apply length_times_dash.
Qed.

End Further.

(** ** Runs on concrete inputs *)

(** C2: with flags that contain neither [c] nor [u] the change test is
    skipped, and the comparison is expected to return the groups the flags
    name.  On flags ["ar"] and two non-empty snapshots the code instead
    raises [UnboundLocalError] before any file is accessed: the group table
    reads the local [changed], which is assigned only under the [c]/[u]
    test. *)
Theorem comparison_flags_ar_raises :
  comparison Ex.digest "ar" Ex.tree_a Ex.tree_b false Ex.fs_ab
  = ([], Raise (UnboundLocalError "changed")).
Proof. by apply comparison_unbound_changed. Qed.

(** C1: in a cycle, every Shared path whose fingerprints in the two
    checksum maps differ should end up in the final Changed group, wherever
    [c] stands in the flags.  With flags ["acr"] and [a.txt] rewritten
    between the walks, the two maps hold different digests for
    [/w/a.txt] and the Shared group holds [a.txt], yet the Changed group
    handed to the printer is the empty one the comparison produced: the
    second loop over [compared] stops after its first element. *)
Theorem monitor_flags_acr_changed_not_replaced :
  snd (get_checksums Ex.digest Ex.tree_w Ex.fs_foo)
  = Ok {["/w/a.txt" := "foo"]} ∧
  snd (get_checksums Ex.digest Ex.tree_w Ex.fs_bar)
  = Ok {["/w/a.txt" := "bar"]} ∧
  snd (comparison Ex.digest (flags_with_shared "acr")
                  Ex.tree_w Ex.tree_w true Ex.fs_bar)
  = Ok [("Added", []); ("Changed", []); ("Removed", []);
        ("Shared", ["a.txt"])] ∧
  snd (monitor_cycle Ex.digest (Args "acr" false 3)
                     Ex.tree_w Ex.fs_foo Ex.tree_w Ex.fs_bar)
  = Ok [("Added", []); ("Changed", []); ("Removed", [])] ∧
  snd (monitor_cycle Ex.digest (Args "car" false 3)
                     Ex.tree_w Ex.fs_foo Ex.tree_w Ex.fs_bar)
  = Ok [("Changed", ["a.txt"]); ("Added", []); ("Removed", [])].
Proof. split_and!; by vm_compute. Qed.

(** C3 (as stated): with flags ["aac"] the comparison does not return
    Added then Changed; it returns the Added group twice, then Changed. *)
Lemma comparison_flags_aac_repeats_added :
  snd (comparison Ex.digest "aac" Ex.tree_a Ex.tree_b false Ex.fs_ab)
  = Ok [("Added", ["d/"; "y.txt"]); ("Added", ["d/"; "y.txt"]);
        ("Changed", ["x.txt"])] ∧
  snd (comparison Ex.digest "aac" Ex.tree_a Ex.tree_b false Ex.fs_ab)
  ≠ Ok [("Added", ["d/"; "y.txt"]); ("Changed", ["x.txt"])].
Proof. split; by vm_compute. Qed.

(** The order theorem on the run with flags ["aac"]. *)
Lemma comparison_group_order_witness :
  map fst [("Added", ["d/"; "y.txt"]); ("Added", ["d/"; "y.txt"]);
           ("Changed", ["x.txt"])]
  = flag_labels "aac".
Proof.
  apply (comparison_group_order Ex.digest "aac" Ex.tree_a Ex.tree_b false
           Ex.fs_ab
           [Getsize "/a/x.txt"; Getsize "/b/x.txt";
            ReadFile "/a/x.txt"; ReadFile "/b/x.txt"]).
  reflexivity.
Defined.

(** The cascade on [/a/x.txt] and [/b/x.txt]: equal sizes, other bytes. *)
Lemma differing_cascade_witness :
  (String.length "aaaa" ≠ String.length "bbbb" →
   ∀ skip_checksum,
     differing Ex.digest ("/a/x.txt", "/b/x.txt") skip_checksum Ex.fs_ab
     = ([Getsize "/a/x.txt"; Getsize "/b/x.txt"], Ok true)) ∧
  (String.length "aaaa" = String.length "bbbb" →
   differing Ex.digest ("/a/x.txt", "/b/x.txt") false Ex.fs_ab
   = ([Getsize "/a/x.txt"; Getsize "/b/x.txt";
       ReadFile "/a/x.txt"; ReadFile "/b/x.txt"],
      Ok (bool_decide (Ex.digest "aaaa" ≠ Ex.digest "bbbb"))) ∧
   differing Ex.digest ("/a/x.txt", "/b/x.txt") true Ex.fs_ab
   = ([Getsize "/a/x.txt"; Getsize "/b/x.txt";
       Getmtime "/a/x.txt"; Getmtime "/b/x.txt"],
      Ok (bool_decide (1%Z ≠ 1%Z)))).
Proof.
  apply (differing_cascade Ex.digest Ex.fs_ab "/a/x.txt" "/b/x.txt"
           (File "aaaa" 1) (File "bbbb" 1)); reflexivity.
Defined.


(** The first cycle of a watch with [skip_checksum] on [/w]. *)
Lemma monitor_skip_checksum_unbound_witness :
  let a := Args "car" true 3 in
  let o := Observation true Ex.tree_w Ex.fs_foo Ex.tree_w Ex.fs_bar in
  bind_checksums Ex.digest true Ex.tree_w Ex.fs_foo = ([], Ok None) ∧
  bind_checksums Ex.digest true Ex.tree_w Ex.fs_bar = ([], Ok None) ∧
  monitor_cycle Ex.digest a Ex.tree_w Ex.fs_foo Ex.tree_w Ex.fs_bar
  = ([Getsize "/w/a.txt"; Getsize "/w/a.txt";
      Getmtime "/w/a.txt"; Getmtime "/w/a.txt"],
     Raise (UnboundLocalError "pre_checksums")) ∧
  is_NameError (UnboundLocalError "pre_checksums") = true ∧
  monitor Ex.digest a None [o]
  = ([], Crashed (UnboundLocalError "pre_checksums")).
Proof.
  apply (monitor_skip_checksum_unbound Ex.digest (Args "car" true 3) None
           (Observation true Ex.tree_w Ex.fs_foo Ex.tree_w Ex.fs_bar) []
           [Getsize "/w/a.txt"; Getsize "/w/a.txt";
            Getmtime "/w/a.txt"; Getmtime "/w/a.txt"]
           [("Changed", []); ("Added", []); ("Removed", []);
            ("Shared", ["a.txt"])]);
    [reflexivity | reflexivity | vm_compute; reflexivity | discriminate].
Defined.

(** C4 (as stated): for root [/a/b] and the single path [/a/b/x] the
    longest common prefix is [/a/b]; removing it from the front leaves
    [/x], but the code returns [x], because it removes the prefix with a
    separator appended.  For root [a] and path [ab/a/x] the code removes
    [a/] from the middle of the path. *)
Lemma stripped_listing_not_common_prefix :
  Path.commonprefix ["/a/b"; "/a/b/x"] = "/a/b" ∧
  strip_common_prefix "/a/b" ["/a/b/x"] = ["/x"] ∧
  stripped_listing "/a/b" ["/a/b/x"] = ["x"] ∧
  stripped_listing "/a/b" ["/a/b/x"]
  ≠ strip_common_prefix "/a/b" ["/a/b/x"] ∧
  stripped_listing "a" ["ab/a/x"] = ["ab/x"].
Proof. split_and!; by vm_compute. Qed.

(** Two copies of one tree, listed in different orders. *)
Lemma identical_trees_no_difference_witness :
  snd (comparison Ex.digest "acr" (os_walk "/a" Ex.content_a)
                  (os_walk "/b" Ex.content_b) false Ex.fs_copies)
  = Ok [("Added", []); ("Changed", []); ("Removed", [])].
Proof.
  apply (identical_trees_no_difference Ex.digest Ex.content_a Ex.content_b
           "/a" "/b" Ex.fs_copies false).
  - reflexivity.
  - reflexivity.
  - unfold same_tree. vm_compute rel_paths. vm_compute rel_files.
    split; intros p; rewrite !elem_of_cons, !elem_of_nil; tauto.
  - unfold holds. vm_compute tree_files. repeat constructor.
  - unfold holds. vm_compute tree_files. repeat constructor.
  - discriminate.
Defined.

(** ** Further runs on concrete inputs *)

(** The checksum map of the snapshot of [/b]. *)
Lemma get_checksums_Ok_witness :
  ∃ m, get_checksums Ex.digest Ex.tree_b Ex.fs_ab
       = (map ReadFile (snapshot_files Ex.tree_b), Ok m) ∧
       ∀ k, m !! k = if decide (k ∈ snapshot_files Ex.tree_b)
                     then (λ x, Ex.digest (f_data x)) <$> Ex.fs_ab k
                     else None.
Proof.
  apply (get_checksums_Ok Ex.digest Ex.tree_b Ex.fs_ab).
  vm_compute snapshot_files. repeat (constructor; [by eexists|]).
  constructor.
Defined.

(** The snapshot of [/a] on a file system without [/a/x.txt]. *)
Lemma get_checksums_missing_witness :
  get_checksums Ex.digest Ex.tree_a Ex.fs_foo
  = (map ReadFile [] ++ [ReadFile "/a/x.txt"], Raise (IOError "/a/x.txt")).
Proof.
  apply (get_checksums_missing Ex.digest Ex.tree_a Ex.fs_foo
           [] "/a/x.txt" []); [reflexivity|constructor|reflexivity].
Defined.

(** The tree below [/a] against its edited copy below [/c]. *)
Lemma comparison_walks_returns_witness :
  returns (comparison Ex.digest "car" (os_walk "/a" Ex.content_a)
                      (os_walk "/c" Ex2.content_c) false Ex2.fs_edit).
Proof.
  apply (comparison_walks_returns Ex.digest "car" Ex.content_a
           Ex2.content_c "/a" "/c" false Ex2.fs_edit).
  - reflexivity.
  - reflexivity.
  - unfold holds. vm_compute tree_files. repeat constructor.
  - unfold holds. vm_compute tree_files. repeat constructor.
  - left. reflexivity.
Defined.

(** The groups of the run on [/a] and [/b] are sorted. *)
Lemma comparison_groups_sorted_witness :
  Forall (λ g, Sorted String.le (snd g))
         [("Added", ["d/"; "y.txt"]); ("Changed", ["x.txt"]);
          ("Removed", [])].
Proof.
  apply (comparison_groups_sorted Ex.digest "acr" Ex.tree_a Ex.tree_b false
           Ex.fs_ab
           [Getsize "/a/x.txt"; Getsize "/b/x.txt";
            ReadFile "/a/x.txt"; ReadFile "/b/x.txt"]).
  reflexivity.
Defined.

(** The edited copy, at the path [x.txt]. *)
Lemma changed_unchanged_partition_witness :
  let res := [("Changed", ["x.txt"]); ("Shared", ["d/"; "d/y"; "x.txt"]);
              ("Unchanged", ["d/y"])] in
  ("x.txt" ∈ group_paths "Changed" res ↔
     "x.txt" ∈ group_paths "Shared" res ∧ is_dir_path "x.txt" = false ∧
     says_true (differing Ex.digest
                  (Path.join "/a" "x.txt", Path.join "/c" "x.txt")
                  false Ex2.fs_edit) = true) ∧
  ("x.txt" ∈ group_paths "Unchanged" res ↔
     "x.txt" ∈ group_paths "Shared" res ∧ is_dir_path "x.txt" = false ∧
     "x.txt" ∉ group_paths "Changed" res).
Proof.
  apply (changed_unchanged_partition Ex.digest "csu" Ex.content_a
           Ex2.content_c "/a" "/c" false Ex2.fs_edit
           [Getsize "/a/x.txt"; Getsize "/c/x.txt"; ReadFile "/a/x.txt";
            ReadFile "/c/x.txt"; Getsize "/a/d/y"; Getsize "/c/d/y";
            ReadFile "/a/d/y"; ReadFile "/c/d/y"]
           [("Changed", ["x.txt"]); ("Shared", ["d/"; "d/y"; "x.txt"]);
            ("Unchanged", ["d/y"])]).
  - reflexivity.
  - reflexivity.
  - vm_compute list_ascii_of_string. repeat constructor.
  - vm_compute list_ascii_of_string. repeat constructor.
  - vm_compute list_ascii_of_string. repeat constructor.
  - reflexivity.
Defined.

(** The watched directory compared with itself after [a.txt] was
    rewritten. *)
Lemma comparison_same_root_changed_witness :
  group_paths "Changed" [("Changed", []); ("Added", []); ("Removed", [])]
  = [].
Proof.
  apply (comparison_same_root_changed Ex.digest "car" "/w" [] ["a.txt"] []
           [] ["a.txt"] [] false Ex.fs_bar
           [Getsize "/w/a.txt"; Getsize "/w/a.txt";
            ReadFile "/w/a.txt"; ReadFile "/w/a.txt"]).
  reflexivity.
Defined.

(** Stripping and re-joining the listing of the tree below [/a]. *)
Lemma join_stripped_walk_witness :
  map (Path.join "/a")
      (stripped_listing "/a" (full_listing (os_walk "/a" Ex.content_a)))
  = full_listing (os_walk "/a" Ex.content_a).
Proof.
  apply (join_stripped_walk "/a" Ex.content_a). reflexivity.
Defined.

(** [/a/x.txt] in the listing of the tree below [/a]. *)
Lemma listing_files_iff_witness :
  ("/a/x.txt" ∈ full_listing (os_walk "/a" Ex.content_a)
   ∧ is_dir_path "/a/x.txt" = false)
  ↔ "/a/x.txt" ∈ map fst (tree_files "/a" Ex.content_a).
Proof.
  apply (listing_files_iff "/a" Ex.content_a "/a/x.txt"). reflexivity.
Defined.

(** The checksum map of the walk of the tree below [/a]. *)
Lemma get_checksums_walk_witness :
  ∃ m, snd (get_checksums Ex.digest (os_walk "/a" Ex.content_a)
                          Ex.fs_copies) = Ok m ∧
       (∀ p d, (p, d) ∈ tree_files "/a" Ex.content_a →
               m !! p = Some (Ex.digest d)) ∧
       (∀ k, is_Some (m !! k) →
             k ∈ map fst (tree_files "/a" Ex.content_a)).
Proof.
  apply (get_checksums_walk Ex.digest Ex.fs_copies "/a" Ex.content_a).
  unfold holds. vm_compute tree_files. repeat constructor.
Defined.

(** The labels of a cycle with the default flags. *)
Lemma monitor_cycle_labels_witness :
  map fst [("Changed", ["a.txt"]); ("Added", []); ("Removed", [])]
  = remove_first "Shared" (flag_labels (flags_with_shared "car")).
Proof.
  apply (monitor_cycle_labels Ex.digest (Args "car" false 3)
           Ex.tree_w Ex.fs_foo Ex.tree_w Ex.fs_bar
           [ReadFile "/w/a.txt"; ReadFile "/w/a.txt";
            Getsize "/w/a.txt"; Getsize "/w/a.txt";
            Getmtime "/w/a.txt"; Getmtime "/w/a.txt"]).
  reflexivity.
Defined.

(** The Changed group of a cycle with the default flags. *)
Lemma monitor_cycle_changed_witness :
  ∃ root dirs files rest pre cur compared,
    Ex.tree_w = (root, dirs, files) :: rest ∧
    snd (get_checksums Ex.digest Ex.tree_w Ex.fs_foo) = Ok pre ∧
    snd (get_checksums Ex.digest Ex.tree_w Ex.fs_bar) = Ok cur ∧
    snd (comparison Ex.digest (flags_with_shared "car")
                    Ex.tree_w Ex.tree_w true Ex.fs_bar) = Ok compared ∧
    group_paths "Changed"
      [("Changed", ["a.txt"]); ("Added", []); ("Removed", [])]
    = filter (λ p, digest_differs pre cur (Path.join root p))
             (group_paths "Shared" compared).
Proof.
  apply (monitor_cycle_changed Ex.digest (Args "car" false 3)
           Ex.tree_w Ex.fs_foo Ex.tree_w Ex.fs_bar
           [ReadFile "/w/a.txt"; ReadFile "/w/a.txt";
            Getsize "/w/a.txt"; Getsize "/w/a.txt";
            Getmtime "/w/a.txt"; Getmtime "/w/a.txt"]);
    reflexivity.
Defined.

(** A cycle over the tree below [/a], walked before and after the sleep. *)
Lemma monitor_cycle_returns_witness :
  returns (monitor_cycle Ex.digest (Args "car" false 3)
                         (os_walk "/a" Ex.content_a) Ex2.fs_edit
                         (os_walk "/a" Ex.content_b) Ex.fs_copies).
Proof.
  apply (monitor_cycle_returns Ex.digest (Args "car" false 3) "/a"
           Ex.content_a Ex.content_b Ex2.fs_edit Ex.fs_copies).
  - reflexivity.
  - reflexivity.
  - unfold holds. vm_compute tree_files. repeat constructor.
  - unfold holds. vm_compute tree_files. repeat constructor.
  - reflexivity.
  - left. reflexivity.
Defined.
